(** * Langevin dynamics and Metropolis Monte Carlo for the HF bond length

    A shallow embedding of the notebook
    [HF_AverageBondLengthCalculations_preCodeRemoval.ipynb]: the spline
    set-up of cell 3, the [BBK] integrator of cell 9, the trajectory loop of
    cell 11 and the Metropolis loop of cell 12.

    Conventions of the embedding.
    - A Python or numpy float is a real number of [R]; rounding, [inf] and
      [nan] are not represented.  Where numpy returns [inf] or [nan]
      without raising (a numpy division by zero, [np.sqrt] of a negative
      number, an exponential out of range, the mean of an empty slice) the
      model has the value that Rocq's total [/], [sqrt] and [exp] give;
      the theorems on such values carry the hypotheses that keep the
      computation away from these cases.
    - Python exceptions are values of [result]: a division of two Python
      floats by zero raises [ZeroDivisionError], a power of a Python float
      whose result is out of the binary64 range raises [OverflowError], an
      index outside an array raises [IndexError], [min] and [np.argmin] of
      an empty sequence raise [ValueError].
    - [np.random] is an input: every draw the code makes is a parameter.
    - scipy's spline objects are an interface ([SplineLib]); its documented
      behaviour is stated as explicit contracts where a proof needs it. *)

From Stdlib Require Import Reals Lra Lia List Arith Bool Sorted.
Import ListNotations.
Open Scope R_scope.

(** ** Python exceptions as an error monad *)

Inductive exn : Set :=
  ZeroDivisionError | OverflowError | IndexError | ValueError.

Inductive result (A : Type) : Type :=
| Ok (a : A)
| Raise (e : exn).
Arguments Ok {A} a.
Arguments Raise {A} e.

Definition bind {A B : Type} (c : result A) (k : A -> result B) : result B :=
  match c with
  | Ok a => k a
  | Raise e => Raise e
  end.

Notation "x <- c ;; k" := (bind c (fun x => k))
  (at level 61, c at next level, right associativity).

Definition succeeds {A : Type} (c : result A) : Prop := exists a, c = Ok a.

(** ** Python and numpy primitives *)

(** [x / y] on two Python floats. *)
Definition float_div (x y : R) : result R :=
  if Req_dec_T y 0 then Raise ZeroDivisionError else Ok (x / y).

(** The smallest magnitude that binary64 rounds to an infinity,
    [2^1024 - 2^970]. *)
Definition float_overflow : R := IZR (2 ^ 1024 - 2 ^ 970).

(** [x ** 2] on a Python float: [float.__pow__] raises [OverflowError] when
    the result is out of range (only [**] does so; [*], [+] and [/] by a
    non-zero float give [inf]). *)
Definition float_pow2 (x : R) : result R :=
  if Rlt_dec (x ^ 2) float_overflow then Ok (x ^ 2) else Raise OverflowError.

(** [np.zeros(n)]. *)
Definition np_zeros (n : nat) : list R := repeat 0 n.

(** [a[i] = x] on a numpy array, for an index [i >= 0]. *)
Definition setitem (a : list R) (i : nat) (x : R) : result (list R) :=
  if (i <? length a)%nat then Ok (firstn i a ++ x :: skipn (S i) a)
  else Raise IndexError.

(** [a[i]] on a numpy array, for an index [i >= 0]. *)
Definition getitem (a : list R) (i : nat) : result R :=
  match nth_error a i with
  | Some x => Ok x
  | None => Raise IndexError
  end.

(** [a[lo:hi]]. *)
Definition slice (a : list R) (lo hi : nat) : list R :=
  firstn (hi - lo) (skipn lo a).

(** [range(lo, hi)]. *)
Definition py_range (lo hi : nat) : list nat := seq lo (hi - lo).

(** [for i in idx: s = body(i, s)], stopping at the first exception. *)
Fixpoint for_loop {S : Type} (body : nat -> S -> result S)
                  (idx : list nat) (s : S) : result S :=
  match idx with
  | [] => Ok s
  | i :: rest => s' <- body i s ;; for_loop body rest s'
  end.

Definition np_sum (a : list R) : R := fold_right Rplus 0 a.

(** [np.mean(a)]; numpy gives [nan] (and a warning) for an empty [a]. *)
Definition np_mean (a : list R) : R := np_sum a / INR (length a).

(** The scan behind [min(a)]: the first smallest element wins. *)
Fixpoint min_from (best : R) (a : list R) : R :=
  match a with
  | [] => best
  | x :: rest => if Rlt_dec x best then min_from x rest else min_from best rest
  end.

Definition py_min (a : list R) : result R :=
  match a with
  | [] => Raise ValueError
  | x :: rest => Ok (min_from x rest)
  end.

(** The scan behind [np.argmin(a)]: the index of the first smallest element. *)
Fixpoint argmin_from (best_i : nat) (best : R) (i : nat) (a : list R) : nat :=
  match a with
  | [] => best_i
  | x :: rest =>
      if Rlt_dec x best then argmin_from i x (S i) rest
      else argmin_from best_i best (S i) rest
  end.

Definition np_argmin (a : list R) : result nat :=
  match a with
  | [] => Raise ValueError
  | x :: rest => Ok (argmin_from 0 x 1 rest)
  end.

(** [np.linspace(start, stop, num)]: [num] samples [start + i * step] with
    [step = (stop - start) / (num - 1)]. *)
Definition np_linspace (start stop : R) (num : nat) : list R :=
  map (fun i => INR i * ((stop - start) / INR (num - 1)) + start) (seq 0 num).

(** [np.random.uniform(low, high)], computed by numpy as
    [low + (high - low) * u] from a draw [u] of [0,1). *)
Definition np_uniform (low high u : R) : R := low + (high - low) * u.

(** [np.multiply(a, b)] for two arrays of one length (the notebook's two
    operands have 200 entries each). *)
Definition np_multiply (a b : list R) : list R :=
  map (fun ab => fst ab * snd ab) (combine a b).

(** Where Python puts a slice bound [i] in a sequence of length [len]: a
    negative bound counts from the end, and every bound is clipped to
    [0..len]. *)
Definition slice_bound (i : Z) (len : nat) : nat :=
  if (i <? 0)%Z then Z.to_nat (Z.max 0 (i + Z.of_nat len))
  else Nat.min (Z.to_nat i) len.

(** [a[start:stop]] for integers [start] and [stop] of either sign. *)
Definition py_slice (a : list R) (start stop : Z) : list R :=
  let lo := slice_bound start (length a) in
  let hi := slice_bound stop (length a) in
  firstn (hi - lo) (skipn lo a).

(** [a / b] on two Python ints: the quotient as a float. *)
Definition int_truediv (a b : nat) : result R :=
  if (b =? 0)%nat then Raise ZeroDivisionError else Ok (INR a / INR b).

(** ** scipy.interpolate: the spline objects the notebook uses

    The constructor raises on data it rejects (abscissae that do not
    increase, fewer than [k + 1] points); the notebook's literals are
    accepted, and the interface takes the constructor as total. *)

Class SplineLib : Type := {
  spline : Type;
  (** [s(x)] *)
  spl_eval : spline -> R -> R;
  (** [s.derivative()] *)
  spl_derivative : spline -> spline;
  (** [InterpolatedUnivariateSpline(x, y, k=k)] *)
  InterpolatedUnivariateSpline : list R -> list R -> nat -> spline
}.

(** What scipy documents for [s.derivative()]: the spline it returns is the
    derivative of [s].  (It holds of a spline that is differentiable; a
    cubic interpolating spline is so twice.) *)
Definition derivative_contract {L : SplineLib} (s : spline) : Prop :=
  forall x : R, derivable_pt_lim (spl_eval s) x (spl_eval (spl_derivative s) x).

(** What scipy documents for [InterpolatedUnivariateSpline(xs, ys, k=k)]: the
    result is the one spline of its spline space (the splines of degree [k]
    on the knots scipy derives from [xs]; here [Sp]) that passes through all
    the points.  A spline space contains the constants and is closed under
    sums, so it is closed under adding a constant. *)
Record interpolation_contract {L : SplineLib} (xs : list R) (k : nat)
       (Sp : (R -> R) -> Prop) : Prop := {
  fit_in_space :
    forall ys, length ys = length xs ->
      Sp (spl_eval (InterpolatedUnivariateSpline xs ys k));
  fit_interpolates :
    forall ys, length ys = length xs ->
      forall i, (i < length xs)%nat ->
        spl_eval (InterpolatedUnivariateSpline xs ys k) (nth i xs 0) = nth i ys 0;
  space_add_constant :
    forall f c, Sp f -> Sp (fun x => f x + c);
  space_unique :
    forall f g, Sp f -> Sp g ->
      (forall i, (i < length xs)%nat -> f (nth i xs 0) = g (nth i xs 0)) ->
      forall x, f x = g x
}.

(** ** Cell 9: the BBK integrator

    [xi] is the value [np.random.normal(0,1)] returns inside the call.  At
    both call sites [gamma_val], [temperature_val], [mu] and [dt] are Python
    floats, so [dt**2] is Python's float power, which raises when the
    square is out of range, and the quotient by [dt] in the perturbation
    line is Python's float division, which raises on a zero divisor.  The
    other quotients have a numpy scalar as numerator (the spline returns
    one) and do not raise. *)

Definition BBK (r_curr v_curr rp_curr gamma_val temperature_val mu : R)
               (f_interp : R -> R) (dt : R) (xi : R) : result (R * R * R) :=
  let a_curr := (-1 * f_interp r_curr + rp_curr) / mu - gamma_val * v_curr in
  dt2 <- float_pow2 dt ;;
  let r_fut := r_curr + v_curr * dt + 0.5 * a_curr * dt2 in
  q <- float_div (2 * temperature_val * gamma_val * mu) dt ;;
  let rp_fut := sqrt q * xi in
  let a_fut := (-1 * f_interp r_fut + rp_fut) / mu in
  let v_fut := (v_curr + 0.5 * (a_curr + a_fut) * dt) / (1 + 0.5 * gamma_val * dt) in
  Ok (r_fut, v_fut, rp_fut).

(** The perturbation line of [BBK] on its own:
    [rp_fut = np.sqrt(2*temperature_val*gamma_val*mu/dt)*np.random.normal(0,1)]. *)
Definition BBK_perturbation (gamma_val temperature_val mu dt xi : R) : result R :=
  q <- float_div (2 * temperature_val * gamma_val * mu) dt ;;
  Ok (sqrt q * xi).

(** The time steps [BBK] accepts: not zero, and with a square inside the
    binary64 range. *)
Definition valid_step (dt : R) : Prop := dt <> 0 /\ dt ^ 2 < float_overflow.

(** The radicand [2*temperature_val*gamma_val*mu/dt] of the perturbation
    line is not negative, and each product on the way to it and the
    quotient are inside the binary64 range: Python's float products do not
    raise, they give [inf]. *)
Definition radicand_in_range (T gamma mu dt : R) : Prop :=
  Rabs (2 * T) < float_overflow
  /\ Rabs (2 * T * gamma) < float_overflow
  /\ Rabs (2 * T * gamma * mu) < float_overflow
  /\ 0 <= 2 * T * gamma * mu / dt < float_overflow.

(** An exponent at which binary64's [exp] stays inside the normal numbers:
    [exp 700] is about 1e304 and [exp (-700)] about 1e-304. *)
Definition exponent_in_range (x : R) : Prop := -700 <= x <= 700.

(** The BBK update as the specification words it, with the force
    [F = -dE/dr] and the future perturbation [rp'] given. *)
Definition BBK_spec (F : R -> R) (r v rp gamma mu dt rp' : R) : R * R * R :=
  let a := (F r + rp) / mu - gamma * v in
  let r' := r + v * dt + 0.5 * a * dt ^ 2 in
  let a' := (F r' + rp') / mu in
  let v' := (v + 0.5 * (a + a') * dt) / (1 + 0.5 * gamma * dt) in
  (r', v', rp').

(** ** The literals of the notebook *)

Module HF.

(** Cell 1: bond lengths (Angstrom) and energies (Hartree). *)
Definition r_array : list R :=
  [0.5; 0.55; 0.6; 0.65; 0.7; 0.75; 0.8; 0.85; 0.9; 0.95; 1.0; 1.1; 1.2;
   1.3; 1.4; 1.5; 1.6; 1.7; 1.8; 1.9; 2.0; 2.1; 2.2; 2.3].

Definition E_array : list R :=
  [-99.65145319155353; -99.8994262443721; -100.06621001317194;
   -100.17756325854646; -100.25063259195414; -100.2970313588523;
   -100.32474168482375; -100.33931605978479; -100.34465565789081;
   -100.34352787324143; -100.33791544225228; -100.31857920174716;
   -100.29403975969775; -100.26820624042988; -100.24311492569184;
   -100.21980547092805; -100.19879112534593; -100.18029259214076;
   -100.16434868570335; -100.15087255990257; -100.13968771534014;
   -100.13055798203477; -100.12321514624568; -100.11738316835266].

(** Cell 3: masses in atomic units and the reduced mass. *)
Definition mH : R := 1836.
Definition mF : R := 34883.
Definition mu : R := mH * mF / (mH + mF).

(** Cell 5: the time step. *)
Definition dt : R := 0.02.

(** Cell 7: temperature and drag. *)
Definition temperature : R := 0.00094.
Definition gamma : R := 0.005.

(** Cell 11: the number of updates. *)
Definition N_updates : nat := Z.to_nat 200000.

End HF.

(** ** Splines without interior knots

    With four data points a cubic interpolating spline has no interior knot:
    it is the cubic polynomial through the four points.  [cubic_lib] is that
    instance of [SplineLib]; the concrete runs below use it. *)

Record cubic : Type := Cubic { c0 : R; c1 : R; c2 : R; c3 : R }.

Definition cubic_eval (s : cubic) (x : R) : R :=
  c0 s + c1 s * x + c2 s * x ^ 2 + c3 s * x ^ 3.

Definition cubic_derivative (s : cubic) : cubic :=
  Cubic (c1 s) (2 * c2 s) (3 * c3 s) 0.

(** Newton's divided differences, expanded into monomial coefficients. *)
Definition cubic_through (x0 x1 x2 x3 y0 y1 y2 y3 : R) : cubic :=
  let d01 := (y1 - y0) / (x1 - x0) in
  let d12 := (y2 - y1) / (x2 - x1) in
  let d23 := (y3 - y2) / (x3 - x2) in
  let d012 := (d12 - d01) / (x2 - x0) in
  let d123 := (d23 - d12) / (x3 - x1) in
  let d0123 := (d123 - d012) / (x3 - x0) in
  Cubic (y0 - d01 * x0 + d012 * (x0 * x1) - d0123 * (x0 * x1 * x2))
        (d01 - d012 * (x0 + x1) + d0123 * (x0 * x1 + x0 * x2 + x1 * x2))
        (d012 - d0123 * (x0 + x1 + x2))
        d0123.

Definition cubic_fit (xs ys : list R) (k : nat) : cubic :=
  match xs, ys with
  | [x0; x1; x2; x3], [y0; y1; y2; y3] => cubic_through x0 x1 x2 x3 y0 y1 y2 y3
  | _, _ => Cubic 0 0 0 0
  end.

Definition cubic_lib : SplineLib :=
  {| spline := cubic;
     spl_eval := cubic_eval;
     spl_derivative := cubic_derivative;
     InterpolatedUnivariateSpline := cubic_fit |}.

(** The space the cubic instance fits in. *)
Definition is_cubic (f : R -> R) : Prop :=
  exists s : cubic, forall x, f x = cubic_eval s x.

(** Data for concrete runs: four bond lengths (Angstrom) with a flat energy
    and with a well whose minimum is at 1.0 Angstrom, and draws. *)
Definition knots4 : list R := [0.5; 1.0; 1.5; 2.0].

(** A time step of [2^512], about 1.34e154: its square, [2^1024], is out of
    the binary64 range. *)
Definition huge_step : R := IZR (2 ^ 512).
Definition flat4 : list R := [-100; -100; -100; -100].
Definition well4 : list R := [-99.75; -100; -99.75; -99].

Definition zero_draws (i : nat) : R := 0.

Definition two_draws (z0 z1 : R) (i : nat) : R :=
  match i with
  | O => z0
  | _ => z1
  end.

Definition normal_draws (i : nat) : R :=
  match i with
  | O => 1
  | _ => 0.5
  end.

Definition uniform_draws (i : nat) : R := 0.5.

(** ** The cells of the notebook

    Each cell is a function of the globals it reads and of the random
    numbers it draws. *)

Section Notebook.

Context {L : SplineLib}.

(** Globals of cell 1. *)
Variables r_array E_array : list R.

(** Globals set in cells 3, 5 and 7. *)
Variables mu dt temperature gamma : R.

(** The initial state drawn in cells 5 and 7. *)
Variables r_init v_init rp_init : R.

(** Global of cell 11. *)
Variable N_updates : nat.

(** The draws: [xi_bbk n] is the normal deviate of the [n]-th call of [BBK]
    (counted from 0); [normal_mc i] and [uniform_mc i] are the normal and
    the uniform deviate of iteration [i] of the Monte Carlo loop. *)
Variable xi_bbk : nat -> R.
Variables normal_mc uniform_mc : nat -> R.

(** *** Cell 3: spline, fine grid, equilibrium geometry, force constant *)

Definition r_array_au : list R := map (fun r => r * 1.89) r_array.

Definition E_spline : spline := InterpolatedUnivariateSpline r_array_au E_array 3.

Definition r_fine : list R := np_linspace (0.5 * 1.89) (2.3 * 1.89) 200.

Definition E_fine : list R := map (spl_eval E_spline) r_fine.

Definition minE : result R := py_min E_fine.

Definition fE : spline := spl_derivative E_spline.

Definition cE : spline := spl_derivative fE.

Definition Req_idx : result nat := np_argmin E_fine.

Definition r_eq : result R := i <- Req_idx ;; getitem r_fine i.

Definition k : result R := r <- r_eq ;; Ok (spl_eval cE r).

(** *** Cell 11: the Langevin trajectory *)

Record trajectory : Type := Trajectory {
  result_array : R * R * R;
  t_array : list R;
  r_vs_t : list R;
  v_vs_t : list R;
  e_vs_t : list R;
  temp_vs_t : list R
}.

Definition position (s : R * R * R) : R := fst (fst s).
Definition velocity (s : R * R * R) : R := snd (fst s).
Definition perturbation (s : R * R * R) : R := snd s.

(** One pass of [for i in range(1,N_updates)]. *)
Definition trajectory_body (minE_val : R) (i : nat) (tr : trajectory)
  : result trajectory :=
  tmp <- BBK (position (result_array tr)) (velocity (result_array tr))
             (perturbation (result_array tr))
             gamma temperature mu (spl_eval fE) dt (xi_bbk i) ;;
  t' <- setitem (t_array tr) i (dt * INR i) ;;
  r' <- setitem (r_vs_t tr) i (position tmp) ;;
  v' <- setitem (v_vs_t tr) i (velocity tmp) ;;
  e' <- setitem (e_vs_t tr) i
          ((spl_eval E_spline (position tmp) - minE_val)
           + 0.5 * mu * velocity tmp ^ 2) ;;
  T' <- setitem (temp_vs_t tr) i (mu * velocity tmp ^ 2) ;;
  Ok (Trajectory tmp t' r' v' e' T').

(** The cell up to its loop: the arrays, their first entries and the
    first BBK update.  [v_init] is a Python float ([np.random.uniform]
    returns one), so [v_init**2] is Python's float power; in the loop the
    velocity is a numpy scalar, whose power does not raise. *)
Definition trajectory_init (minE_val : R) : result trajectory :=
  r0 <- setitem (np_zeros N_updates) 0 r_init ;;
  v0 <- setitem (np_zeros N_updates) 0 v_init ;;
  v2 <- float_pow2 v_init ;;
  e0 <- setitem (np_zeros N_updates) 0
          ((spl_eval E_spline r_init - minE_val) + 0.5 * mu * v2) ;;
  v2' <- float_pow2 v_init ;;
  T0 <- setitem (np_zeros N_updates) 0 (mu * v2') ;;
  first <- BBK r_init v_init rp_init gamma temperature mu (spl_eval fE) dt
               (xi_bbk 0) ;;
  Ok (Trajectory first (np_zeros N_updates) r0 v0 e0 T0).

(** The cell with its loop cut to [range(1,j)]. *)
Definition trajectory_after (j : nat) : result trajectory :=
  minE_val <- minE ;;
  tr0 <- trajectory_init minE_val ;;
  for_loop (trajectory_body minE_val) (py_range 1 j) tr0.

Definition langevin_trajectory : result trajectory :=
  trajectory_after N_updates.

(** The state reached by [n] successive BBK updates of the initial state,
    the [j]-th update (counted from 0) drawing [xi_bbk j]. *)
Fixpoint BBK_iter (n : nat) : result (R * R * R) :=
  match n with
  | O => Ok (r_init, v_init, rp_init)
  | S m =>
      s <- BBK_iter m ;;
      BBK (position s) (velocity s) (perturbation s)
          gamma temperature mu (spl_eval fE) dt (xi_bbk m)
  end.

(** What the arrays hold once the loop has run over [range(1,j)]. *)
Definition trajectory_inv (j : nat) (tr : trajectory) : Prop :=
  BBK_iter j = Ok (result_array tr)
  /\ length (t_array tr) = N_updates
  /\ length (r_vs_t tr) = N_updates
  /\ length (v_vs_t tr) = N_updates
  /\ length (e_vs_t tr) = N_updates
  /\ length (temp_vs_t tr) = N_updates
  /\ nth 0 (t_array tr) 0 = 0
  /\ nth 0 (r_vs_t tr) 0 = r_init
  /\ nth 0 (v_vs_t tr) 0 = v_init
  /\ forall i, (1 <= i < j)%nat ->
       exists s, BBK_iter (S i) = Ok s
                 /\ nth i (t_array tr) 0 = dt * INR i
                 /\ nth i (r_vs_t tr) 0 = position s
                 /\ nth i (v_vs_t tr) 0 = velocity s.

(** *** Cell 12: Metropolis Monte Carlo *)

Definition E_spline_shifted : spline :=
  InterpolatedUnivariateSpline r_array_au (map (fun e => e + 100) E_array) 3.

Record mc_state : Type := McState {
  r_accepted_array : list R;
  num_accepted_r : nat;
  r_prev : R
}.

(** [p], equation 3.34. *)
Definition metropolis_p (r_trial r_prev_val : R) : R :=
  exp (- spl_eval E_spline_shifted r_trial / temperature)
  / exp (- spl_eval E_spline_shifted r_prev_val / temperature).

(** One pass of [for i in range(0,N_updates)]. *)
Definition mc_body (i : nat) (st : mc_state) : result mc_state :=
  let r_trial := r_prev st + normal_mc i in
  let p := metropolis_p r_trial (r_prev st) in
  if Rlt_dec (uniform_mc i) p then
    a <- setitem (r_accepted_array st) (num_accepted_r st) r_trial ;;
    Ok (McState a (num_accepted_r st + 1) (r_prev st))
  else Ok st.

Definition mc_init : mc_state := McState (np_zeros N_updates) 0 r_init.

(** The state after the first [j] iterations of the loop. *)
Definition mc_after (j : nat) : result mc_state :=
  for_loop mc_body (py_range 0 j) mc_init.

Definition monte_carlo : result mc_state := mc_after N_updates.

(** The Metropolis step as the specification words it: an accepted proposal
    becomes the current state, from which the next proposal is generated. *)
Definition metropolis_body (i : nat) (st : mc_state) : result mc_state :=
  let r_trial := r_prev st + normal_mc i in
  let p := metropolis_p r_trial (r_prev st) in
  if Rlt_dec (uniform_mc i) p then
    a <- setitem (r_accepted_array st) (num_accepted_r st) r_trial ;;
    Ok (McState a (num_accepted_r st + 1) r_trial)
  else Ok st.

Definition metropolis_after (j : nat) : result mc_state :=
  for_loop metropolis_body (py_range 0 j) mc_init.

(** [r_av_mc = np.mean(r_accepted_array[0:num_accepted_r])]. *)
Definition r_av_mc (st : mc_state) : R :=
  np_mean (slice (r_accepted_array st) 0 (num_accepted_r st)).

(** Iteration [i] of the loop accepts its trial position. *)
Definition accepts (i : nat) : Prop :=
  uniform_mc i < metropolis_p (r_init + normal_mc i) r_init.

Definition accepts_dec (i : nat) : {accepts i} + {~ accepts i} :=
  Rlt_dec (uniform_mc i) (metropolis_p (r_init + normal_mc i) r_init).

(** The trial positions accepted in iterations [lo], ..., [lo + n - 1].
    The loop never assigns [r_prev], so the trial of iteration [i] is
    [r_init + normal_mc i] and it is tested against [r_init]. *)
Fixpoint accepted_trials (lo n : nat) : list R :=
  match n with
  | O => []
  | S m =>
      if accepts_dec lo then (r_init + normal_mc lo) :: accepted_trials (S lo) m
      else accepted_trials (S lo) m
  end.

(** *** Cells 5 and 7: the initial state and the Boltzmann average

    [u_r], [u_v] are the uniform draws behind [r_init] and [v_init];
    [xi_init] is the normal draw behind [rp_init]. *)
Variables u_r u_v xi_init : R.

(** Cell 5: the "ground-state" velocity [v], the drawn [r_init] and
    [v_init], and [F_init]. *)
Definition initial_conditions : result (R * R * R * R) :=
  k_val <- k ;;
  r_eq_val <- r_eq ;;
  let v := sqrt (sqrt (k_val / mu) / (2 * mu)) in
  let r_init := np_uniform (0.5 * r_eq_val) (1.5 * r_eq_val) u_r in
  let v_init := np_uniform (- v) v u_v in
  let F_init := -1 * spl_eval fE r_init in
  Ok (v, r_init, v_init, F_init).

(** Cell 7: [rp_init]. *)
Definition initial_perturbation : result R :=
  q <- float_div (2 * temperature * gamma * mu) dt ;;
  let rp_init := sqrt q * xi_init in
  Ok rp_init.

(** Cell 7: [E_shifted = E_fine+100] and the Boltzmann average [r_av]. *)
Definition E_shifted : list R := map (fun e => e + 100) E_fine.

Definition r_av : R :=
  np_sum (np_multiply r_fine (map (fun e => exp (- e / temperature)) E_shifted))
  / np_sum (map (fun e => exp (- e / temperature)) E_shifted).

(** Entry [i] of the five arrays of cell 11 belongs to one state: the time
    is [dt * i], the "temperature" is [mu * v^2] and the energy is the
    potential above [minE] plus the kinetic energy, for the recorded position
    and velocity. *)
Definition arrays_consistent (minE_val : R) (tr : trajectory) (i : nat) : Prop :=
  nth i (t_array tr) 0 = dt * INR i
  /\ nth i (temp_vs_t tr) 0 = mu * nth i (v_vs_t tr) 0 ^ 2
  /\ nth i (e_vs_t tr) 0
     = (spl_eval E_spline (nth i (r_vs_t tr) 0) - minE_val)
       + 0.5 * mu * nth i (v_vs_t tr) 0 ^ 2.

(** *** Cell 11: the printed mean over the last 30000 steps

    [np.mean(r_vs_t[(N_updates-30000):N_updates]/1.89)]. *)
Definition last_30000 (tr : trajectory) : list R :=
  py_slice (r_vs_t tr) (Z.of_nat N_updates - 30000) (Z.of_nat N_updates).

Definition mean_bond_length (tr : trajectory) : R :=
  np_mean (map (fun r => r / 1.89) (last_30000 tr)).

(** *** Cell 12: the printed acceptance rate

    [100*num_accepted_r/N_updates]. *)
Definition acceptance_rate (st : mc_state) : result R :=
  int_truediv (100 * num_accepted_r st) N_updates.

(** The normal draws of the iterations [lo], ..., [lo + n - 1] that accept. *)
Fixpoint accepted_draws (lo n : nat) : list R :=
  match n with
  | O => []
  | S m =>
      if accepts_dec lo then normal_mc lo :: accepted_draws (S lo) m
      else accepted_draws (S lo) m
  end.

(** ** Lemmas on the primitives *)

Lemma float_div_ok (x y : R) : y <> 0 -> float_div x y = Ok (x / y).
Proof.
  intros Hy. unfold float_div.
  destruct (Req_dec_T y 0) as [E | _]; [contradiction | reflexivity].
Qed.

Lemma float_pow2_ok (x : R) :
  x ^ 2 < float_overflow -> float_pow2 x = Ok (x ^ 2).
Proof.
  intros Hx. unfold float_pow2.
  destruct (Rlt_dec (x ^ 2) float_overflow) as [_ | N];
    [reflexivity | contradiction].
Qed.

Lemma float_pow2_overflow (x : R) :
  float_overflow <= x ^ 2 -> float_pow2 x = Raise OverflowError.
Proof.
  intros Hx. unfold float_pow2.
  destruct (Rlt_dec (x ^ 2) float_overflow) as [Hlt | _]; [lra | reflexivity].
Qed.

Lemma float_overflow_gt_1 : 1 < float_overflow.
Proof. unfold float_overflow. apply IZR_lt. reflexivity. Qed.

Lemma float_pow2_zero : float_pow2 0 = Ok (0 ^ 2).
Proof. apply float_pow2_ok. pose proof float_overflow_gt_1. lra. Qed.

Lemma float_div_zero (x : R) : float_div x 0 = Raise ZeroDivisionError.
Proof.
  unfold float_div.
  destruct (Req_dec_T 0 0) as [_ | N]; [reflexivity | contradiction N; reflexivity].
Qed.

Lemma np_zeros_length (n : nat) : length (np_zeros n) = n.
Proof. apply repeat_length. Qed.

Lemma np_zeros_nth (n i : nat) : nth i (np_zeros n) 0 = 0.
Proof.
  unfold np_zeros. revert i.
  induction n as [| n IH]; intros [| i]; simpl; auto.
Qed.

Lemma setitem_ok (a : list R) (i : nat) (x : R) :
  (i < length a)%nat ->
  setitem a i x = Ok (firstn i a ++ x :: skipn (S i) a).
Proof.
  intros Hi. unfold setitem.
  destruct (Nat.ltb_spec i (length a)) as [_ | Hge]; [reflexivity | lia].
Qed.

Lemma updated_length (a : list R) (i : nat) (x : R) :
  (i < length a)%nat ->
  length (firstn i a ++ x :: skipn (S i) a) = length a.
Proof.
  intros Hi. rewrite length_app, length_firstn.
  change (length (x :: skipn (S i) a)) with (S (length (skipn (S i) a))).
  rewrite length_skipn. lia.
Qed.

Lemma updated_nth_same (a : list R) (i : nat) (x : R) :
  (i < length a)%nat ->
  nth i (firstn i a ++ x :: skipn (S i) a) 0 = x.
Proof.
  revert i. induction a as [| h t IH]; intros [| i] Hi; simpl in *; try lia.
  - reflexivity.
  - apply IH. lia.
Qed.

Lemma updated_nth_other (a : list R) (i j : nat) (x : R) :
  (i < length a)%nat -> j <> i ->
  nth j (firstn i a ++ x :: skipn (S i) a) 0 = nth j a 0.
Proof.
  revert i j.
  induction a as [| h t IH]; intros [| i] [| j] Hi Hj; simpl in *;
    try lia; try reflexivity.
  apply IH; lia.
Qed.

Lemma for_loop_app {S : Type} (body : nat -> S -> result S)
      (l1 l2 : list nat) (s : S) :
  for_loop body (l1 ++ l2) s = (s' <- for_loop body l1 s ;; for_loop body l2 s').
Proof.
  revert s. induction l1 as [| i l1 IH]; intros s; simpl.
  - reflexivity.
  - destruct (body i s) as [s1 | e]; simpl; [apply IH | reflexivity].
Qed.

Lemma py_range_snoc (lo hi : nat) :
  (lo <= hi)%nat -> py_range lo (S hi) = py_range lo hi ++ [hi].
Proof.
  intros H. unfold py_range.
  replace (S hi - lo)%nat with (S (hi - lo)) by lia.
  rewrite seq_S. replace (lo + (hi - lo))%nat with hi by lia. reflexivity.
Qed.

(** [np.argmin([3, 1, 2, 1])] is 1, the first of the two smallest. *)
Example np_argmin_first : np_argmin [3; 1; 2; 1] = Ok 1%nat.
Proof.
  unfold np_argmin. cbn [argmin_from].
  destruct (Rlt_dec 1 3) as [_ | N]; [| exfalso; lra].
  destruct (Rlt_dec 2 1) as [Y | _]; [exfalso; lra |].
  destruct (Rlt_dec 1 1) as [Y | _]; [exfalso; lra |].
  reflexivity.
Qed.

(** [a = np.zeros(3); a[1] = 7] gives [0, 7, 0]; [a[3] = 7] raises. *)
Example setitem_in_and_out :
  setitem (np_zeros 3) 1 7 = Ok [0; 7; 0]
  /\ setitem (np_zeros 3) 3 7 = Raise IndexError.
Proof. split; reflexivity. Qed.

(** [range(1, 4)] is 1, 2, 3 and [range(1, 1)] is empty. *)
Example py_range_small : py_range 1 4 = [1; 2; 3]%nat /\ py_range 1 1 = [].
Proof. split; reflexivity. Qed.


(** ** The BBK update *)

Lemma BBK_perturbation_ok (gamma_val temperature_val m h xi : R) :
  h <> 0 ->
  BBK_perturbation gamma_val temperature_val m h xi
  = Ok (sqrt (2 * temperature_val * gamma_val * m / h) * xi).
Proof.
  intros Hh. unfold BBK_perturbation.
  rewrite float_div_ok by assumption. reflexivity.
Qed.

Lemma BBK_ok (r v rp gamma_val temperature_val m : R) (f : R -> R) (h xi : R) :
  valid_step h ->
  BBK r v rp gamma_val temperature_val m f h xi
  = Ok (BBK_spec (fun x => - f x) r v rp gamma_val m h
                 (sqrt (2 * temperature_val * gamma_val * m / h) * xi)).
Proof.
  intros [Hh Hpow]. unfold BBK, BBK_spec.
  rewrite float_pow2_ok by assumption. cbn [bind].
  rewrite float_div_ok by assumption. cbn [bind].
  replace (-1 * f r) with (- f r) by ring.
  set (a := (- f r + rp) / m - gamma_val * v).
  set (r' := r + v * h + 0.5 * a * h ^ 2).
  replace (-1 * f r') with (- f r') by ring.
  reflexivity.
Qed.

Lemma BBK_zero_step (r v rp gamma_val temperature_val m : R) (f : R -> R) (xi : R) :
  BBK r v rp gamma_val temperature_val m f 0 xi = Raise ZeroDivisionError.
Proof.
  unfold BBK. rewrite float_pow2_zero. cbn [bind].
  rewrite float_div_zero. reflexivity.
Qed.

Lemma BBK_overflow (r v rp gamma_val temperature_val m : R) (f : R -> R)
      (h xi : R) :
  float_overflow <= h ^ 2 ->
  BBK r v rp gamma_val temperature_val m f h xi = Raise OverflowError.
Proof.
  intros Hh. unfold BBK. rewrite float_pow2_overflow by exact Hh. reflexivity.
Qed.

Lemma BBK_raises_iff (r v rp gamma_val temperature_val m : R) (f : R -> R)
      (h xi : R) (e : exn) :
  BBK r v rp gamma_val temperature_val m f h xi = Raise e
  <-> (h = 0 /\ e = ZeroDivisionError)
      \/ (float_overflow <= h ^ 2 /\ e = OverflowError).
Proof.
  split.
  - intros H. destruct (Rlt_dec (h ^ 2) float_overflow) as [Hpow | Hbig].
    + destruct (Req_dec_T h 0) as [-> | Hh].
      * rewrite BBK_zero_step in H. injection H as <-. left. split; reflexivity.
      * rewrite BBK_ok in H by (split; assumption). discriminate H.
    + apply Rnot_lt_le in Hbig. rewrite BBK_overflow in H by exact Hbig.
      injection H as <-. right. split; [exact Hbig | reflexivity].
  - intros [[-> ->] | [Hbig ->]]; [apply BBK_zero_step | apply BBK_overflow; exact Hbig].
Qed.

Lemma BBK_succeeds (r v rp gamma_val temperature_val m : R) (f : R -> R) (h xi : R) :
  valid_step h -> succeeds (BBK r v rp gamma_val temperature_val m f h xi).
Proof. intros Hh. eexists. apply BBK_ok. exact Hh. Qed.

Lemma BBK_succeeds_iff (r v rp gamma_val temperature_val m : R) (f : R -> R)
      (h xi : R) :
  succeeds (BBK r v rp gamma_val temperature_val m f h xi) <-> valid_step h.
Proof.
  split; [| apply BBK_succeeds].
  intros [s Hs]. split.
  - intros ->. rewrite BBK_zero_step in Hs. discriminate Hs.
  - destruct (Rlt_dec (h ^ 2) float_overflow) as [Hpow | Hbig]; [exact Hpow |].
    apply Rnot_lt_le in Hbig. rewrite BBK_overflow in Hs by exact Hbig.
    discriminate Hs.
Qed.

Lemma BBK_iter_succeeds (n : nat) : valid_step dt -> succeeds (BBK_iter n).
Proof.
  intros Hdt. induction n as [| n [s IH]]; simpl.
  - eexists. reflexivity.
  - rewrite IH. cbn [bind]. apply BBK_succeeds. exact Hdt.
Qed.


(** ** Cell 3 *)

Lemma py_min_succeeds (a : list R) : (0 < length a)%nat -> succeeds (py_min a).
Proof.
  destruct a as [| x rest]; simpl; intros H; [lia | eexists; reflexivity].
Qed.

Lemma np_linspace_length (a b : R) (n : nat) : length (np_linspace a b n) = n.
Proof. unfold np_linspace. rewrite length_map, length_seq. reflexivity. Qed.

Lemma r_fine_length : length r_fine = 200%nat.
Proof. apply np_linspace_length. Qed.

Lemma E_fine_length : length E_fine = 200%nat.
Proof. unfold E_fine. rewrite length_map. apply r_fine_length. Qed.

Lemma minE_succeeds : succeeds minE.
Proof. apply py_min_succeeds. rewrite E_fine_length. lia. Qed.

(** ** Cell 11: what the trajectory arrays record *)

Lemma trajectory_init_inv (m : R) :
  valid_step dt -> v_init ^ 2 < float_overflow -> (1 <= N_updates)%nat ->
  exists tr0, trajectory_init m = Ok tr0 /\ trajectory_inv 1 tr0.
Proof.
  intros Hdt Hv HN. unfold trajectory_init.
  assert (H0 : (0 < length (np_zeros N_updates))%nat)
    by (rewrite np_zeros_length; lia).
  rewrite !(float_pow2_ok v_init) by exact Hv.
  repeat (rewrite setitem_ok by exact H0; cbn [bind]).
  destruct (BBK_succeeds r_init v_init rp_init gamma temperature mu
              (spl_eval fE) dt (xi_bbk 0) Hdt) as [s1 Hs1].
  rewrite Hs1. cbn [bind]. eexists. split; [reflexivity |].
  unfold trajectory_inv. cbn [result_array t_array r_vs_t v_vs_t e_vs_t temp_vs_t].
  rewrite !updated_length by exact H0.
  rewrite !updated_nth_same by exact H0.
  rewrite np_zeros_length, np_zeros_nth.
  repeat split; try reflexivity.
  - simpl. exact Hs1.
  - intros i Hi. lia.
Qed.

Lemma trajectory_body_inv (m : R) (j : nat) (tr : trajectory) :
  valid_step dt -> (1 <= j < N_updates)%nat -> trajectory_inv j tr ->
  exists tr', trajectory_body m j tr = Ok tr' /\ trajectory_inv (S j) tr'.
Proof.
  intros Hdt Hj (Hres & Lt & Lr & Lv & Le & LT & Ht0 & Hr0 & Hv0 & Hrec).
  unfold trajectory_body.
  destruct (BBK_succeeds (position (result_array tr)) (velocity (result_array tr))
              (perturbation (result_array tr)) gamma temperature mu
              (spl_eval fE) dt (xi_bbk j) Hdt) as [tmp Htmp].
  rewrite Htmp. cbn [bind].
  rewrite !setitem_ok by lia. cbn [bind].
  eexists. split; [reflexivity |].
  assert (Hnext : BBK_iter (S j) = Ok tmp).
  { simpl. rewrite Hres. cbn [bind]. exact Htmp. }
  unfold trajectory_inv. cbn [result_array t_array r_vs_t v_vs_t e_vs_t temp_vs_t].
  rewrite !updated_length by lia.
  rewrite !(updated_nth_other _ j 0) by lia.
  repeat split; try assumption.
  intros i Hi.
  destruct (Nat.eq_dec i j) as [-> | Hne].
  - exists tmp. rewrite !updated_nth_same by lia.
    repeat split; [exact Hnext | reflexivity ..].
  - rewrite !(updated_nth_other _ j i) by lia.
    apply Hrec. lia.
Qed.

Lemma trajectory_loop_inv (m : R) (tr0 : trajectory) (j : nat) :
  valid_step dt -> (1 <= j <= N_updates)%nat -> trajectory_inv 1 tr0 ->
  exists tr, for_loop (trajectory_body m) (py_range 1 j) tr0 = Ok tr
             /\ trajectory_inv j tr.
Proof.
  intros Hdt Hj H0.
  induction j as [| j IH]; [lia |].
  destruct (Nat.eq_dec j 0) as [-> | Hpos].
  - exists tr0. split; [reflexivity | exact H0].
  - destruct IH as (tr & Hloop & Hinv); [lia |].
    rewrite py_range_snoc by lia. rewrite for_loop_app, Hloop. cbn [bind for_loop].
    destruct (trajectory_body_inv m j tr Hdt) as (tr' & Hbody & Hinv');
      [lia | exact Hinv |].
    rewrite Hbody. cbn [bind]. exists tr'. split; [reflexivity | exact Hinv'].
Qed.

Lemma trajectory_after_inv (j : nat) :
  valid_step dt -> v_init ^ 2 < float_overflow -> (1 <= j <= N_updates)%nat ->
  exists tr, trajectory_after j = Ok tr /\ trajectory_inv j tr.
Proof.
  intros Hdt Hv Hj. unfold trajectory_after.
  destruct minE_succeeds as [m Hm]. rewrite Hm. cbn [bind].
  destruct (trajectory_init_inv m Hdt Hv) as (tr0 & Hinit & H0); [lia |].
  rewrite Hinit. cbn [bind].
  apply trajectory_loop_inv; assumption.
Qed.


(** ** Cell 12: the Metropolis loop *)

Lemma accepted_trials_snoc (lo n : nat) :
  accepted_trials lo (S n)
  = accepted_trials lo n
    ++ (if accepts_dec (lo + n) then [r_init + normal_mc (lo + n)] else []).
Proof.
  revert lo. induction n as [| n IH]; intros lo.
  - simpl. rewrite Nat.add_0_r.
    destruct (accepts_dec lo); [reflexivity | reflexivity].
  - change (accepted_trials lo (S (S n)))
      with (if accepts_dec lo
            then (r_init + normal_mc lo) :: accepted_trials (S lo) (S n)
            else accepted_trials (S lo) (S n)).
    rewrite (IH (S lo)).
    replace (S lo + n)%nat with (lo + S n)%nat by lia.
    simpl. destruct (accepts_dec lo); reflexivity.
Qed.

Lemma accepted_trials_length (lo n : nat) :
  (length (accepted_trials lo n) <= n)%nat.
Proof.
  revert lo. induction n as [| n IH]; intros lo; simpl.
  - lia.
  - destruct (accepts_dec lo); simpl; specialize (IH (S lo)); lia.
Qed.

Lemma store_after_prefix (l : list R) (n : nat) (x : R) :
  firstn (length l) (l ++ np_zeros (S n)) ++ x :: skipn (S (length l)) (l ++ np_zeros (S n))
  = (l ++ [x]) ++ np_zeros n.
Proof.
  rewrite firstn_app, Nat.sub_diag, firstn_all. simpl firstn. rewrite app_nil_r.
  rewrite skipn_app, skipn_all2 by lia.
  replace (S (length l) - length l)%nat with 1%nat by lia.
  simpl. rewrite <- app_assoc. reflexivity.
Qed.

(** The loop, run for [j] iterations, has stored the accepted trial
    positions in order at the front of the array and touched nothing else;
    [r_prev] is still [r_init]. *)
Lemma mc_after_state (j : nat) :
  (j <= N_updates)%nat ->
  mc_after j
  = Ok (McState (accepted_trials 0 j
                 ++ np_zeros (N_updates - length (accepted_trials 0 j)))
                (length (accepted_trials 0 j)) r_init).
Proof.
  unfold mc_after. induction j as [| j IH]; intros Hj.
  - simpl. rewrite Nat.sub_0_r. reflexivity.
  - rewrite py_range_snoc by lia. rewrite for_loop_app, IH by lia.
    cbn [bind for_loop]. unfold mc_body. cbn [r_prev r_accepted_array num_accepted_r].
    rewrite accepted_trials_snoc. simpl (0 + j)%nat.
    pose proof (accepted_trials_length 0 j) as Hlen.
    unfold accepts_dec.
    destruct (Rlt_dec (uniform_mc j) (metropolis_p (r_init + normal_mc j) r_init))
      as [Hacc | Hrej].
    + rewrite setitem_ok
        by (rewrite length_app, np_zeros_length; lia).
      cbn [bind].
      replace (N_updates - length (accepted_trials 0 j))%nat
        with (S (N_updates - length (accepted_trials 0 j ++ [r_init + normal_mc j])))
        by (rewrite length_app; simpl; lia).
      rewrite store_after_prefix.
      rewrite length_app. simpl length. reflexivity.
    + rewrite app_nil_r. reflexivity.
Qed.


Lemma metropolis_p_boltzmann (r_trial r_old : R) :
  metropolis_p r_trial r_old
  = exp (- (spl_eval E_spline_shifted r_trial - spl_eval E_spline_shifted r_old)
         / temperature).
Proof.
  unfold metropolis_p.
  unfold Rdiv at 1. rewrite <- exp_Ropp, <- exp_plus.
  f_equal. unfold Rdiv. ring.
Qed.

Lemma exp_ge_1 (x : R) : 0 <= x -> 1 <= exp x.
Proof.
  intros [Hpos | <-].
  - rewrite <- exp_0. left. apply exp_increasing. exact Hpos.
  - rewrite exp_0. right. reflexivity.
Qed.

Lemma mc_body_accept (i : nat) (st : mc_state) :
  uniform_mc i < metropolis_p (r_prev st + normal_mc i) (r_prev st) ->
  mc_body i st
  = (a <- setitem (r_accepted_array st) (num_accepted_r st)
                  (r_prev st + normal_mc i) ;;
     Ok (McState a (num_accepted_r st + 1) (r_prev st))).
Proof.
  intros H. unfold mc_body. cbv zeta.
  destruct (Rlt_dec (uniform_mc i)
              (metropolis_p (r_prev st + normal_mc i) (r_prev st)))
    as [_ | N]; [reflexivity | contradiction].
Qed.

Lemma mc_body_reject (i : nat) (st : mc_state) :
  ~ uniform_mc i < metropolis_p (r_prev st + normal_mc i) (r_prev st) ->
  mc_body i st = Ok st.
Proof.
  intros H. unfold mc_body. cbv zeta.
  destruct (Rlt_dec (uniform_mc i)
              (metropolis_p (r_prev st + normal_mc i) (r_prev st)))
    as [Y | _]; [contradiction | reflexivity].
Qed.

(** [r_prev] is never assigned in the loop: whatever was accepted, every
    iteration perturbs the initial position. *)
Lemma mc_prev_is_initial (j : nat) :
  (j <= N_updates)%nat ->
  exists st, mc_after j = Ok st /\ r_prev st = r_init.
Proof.
  intros Hj. eexists. split; [apply mc_after_state; exact Hj | reflexivity].
Qed.

Lemma metropolis_p_pos (r_trial r_old : R) : 0 < metropolis_p r_trial r_old.
Proof. unfold metropolis_p. apply Rdiv_lt_0_compat; apply exp_pos. Qed.

(** Two iterations whose uniform draws are 0, so that both proposals are
    accepted: the loop proposes twice from [r_init]. *)
Lemma mc_two_steps :
  (2 <= N_updates)%nat -> uniform_mc 0 = 0 -> uniform_mc 1 = 0 ->
  mc_after 2
  = Ok (McState (r_init + normal_mc 0 :: r_init + normal_mc 1
                 :: np_zeros (N_updates - 2)) 2 r_init).
Proof.
  intros HN U0 U1. rewrite mc_after_state by exact HN.
  cbn [accepted_trials].
  destruct (accepts_dec 0) as [_ | N0];
    [| contradiction N0; unfold accepts; rewrite U0; apply metropolis_p_pos].
  destruct (accepts_dec 1) as [_ | N1];
    [| contradiction N1; unfold accepts; rewrite U1; apply metropolis_p_pos].
  reflexivity.
Qed.

(** The same two iterations in the sampler of the specification: the second
    proposal is made from the first accepted position. *)
Lemma metropolis_two_steps :
  (2 <= N_updates)%nat -> uniform_mc 0 = 0 -> uniform_mc 1 = 0 ->
  metropolis_after 2
  = Ok (McState (r_init + normal_mc 0 :: r_init + normal_mc 0 + normal_mc 1
                 :: np_zeros (N_updates - 2)) 2
                (r_init + normal_mc 0 + normal_mc 1)).
Proof.
  intros HN U0 U1. unfold metropolis_after, mc_init.
  destruct N_updates as [| [| n]]; [lia | lia |].
  change (py_range 0 2) with [0%nat; 1%nat]. cbn [for_loop].
  unfold metropolis_body at 1. cbn [r_prev r_accepted_array num_accepted_r].
  destruct (Rlt_dec (uniform_mc 0) (metropolis_p (r_init + normal_mc 0) r_init))
    as [_ | N0]; [| contradiction N0; rewrite U0; apply metropolis_p_pos].
  cbn [np_zeros repeat setitem length Nat.ltb Nat.leb firstn skipn app bind].
  unfold metropolis_body. cbn [r_prev r_accepted_array num_accepted_r].
  destruct (Rlt_dec (uniform_mc 1)
              (metropolis_p (r_init + normal_mc 0 + normal_mc 1)
                            (r_init + normal_mc 0)))
    as [_ | N1]; [| contradiction N1; rewrite U1; apply metropolis_p_pos].
  cbn [Nat.add setitem length Nat.ltb Nat.leb firstn skipn app bind].
  replace (S (S n) - 2)%nat with n by lia. reflexivity.
Qed.

(** C4: the acceptance probability of an iteration is the Boltzmann weight
    of the energy difference between the trial and the current position, on
    the spline the loop evaluates, and the iteration stores its trial
    position exactly when its uniform draw is below that probability;
    otherwise it leaves the state as it was. *)
Theorem acceptance_is_boltzmann (i : nat) (st : mc_state) :
  let r_trial := r_prev st + normal_mc i in
  let p := metropolis_p r_trial (r_prev st) in
  p = exp (- (spl_eval E_spline_shifted r_trial
              - spl_eval E_spline_shifted (r_prev st)) / temperature)
  /\ (uniform_mc i < p ->
      mc_body i st
      = (a <- setitem (r_accepted_array st) (num_accepted_r st) r_trial ;;
         Ok (McState a (num_accepted_r st + 1) (r_prev st))))
  /\ (~ uniform_mc i < p -> mc_body i st = Ok st).
Proof.
  cbv zeta. split; [apply metropolis_p_boltzmann |].
  split; [apply mc_body_accept | apply mc_body_reject].
Qed.

Lemma metropolis_p_downhill (r_trial r_old : R) :
  0 < temperature ->
  spl_eval E_spline_shifted r_trial <= spl_eval E_spline_shifted r_old ->
  1 <= metropolis_p r_trial r_old.
Proof.
  intros HT HE. rewrite metropolis_p_boltzmann. apply exp_ge_1.
  unfold Rdiv. apply Rmult_le_pos.
  - lra.
  - left. apply Rinv_0_lt_compat. exact HT.
Qed.

(** C9: with a positive temperature, a proposal whose energy is not above
    the energy of the current position has an acceptance probability of at
    least 1, and a uniform draw of [0,1) is below it: the iteration accepts
    the proposal. *)
Theorem downhill_always_accepted (i : nat) (st : mc_state) :
  0 < temperature ->
  spl_eval E_spline_shifted (r_prev st + normal_mc i)
    <= spl_eval E_spline_shifted (r_prev st) ->
  0 <= uniform_mc i < 1 ->
  let r_trial := r_prev st + normal_mc i in
  let p := metropolis_p r_trial (r_prev st) in
  1 <= p
  /\ uniform_mc i < p
  /\ mc_body i st
     = (a <- setitem (r_accepted_array st) (num_accepted_r st) r_trial ;;
        Ok (McState a (num_accepted_r st + 1) (r_prev st))).
Proof.
  intros HT HE [Hu0 Hu1]. cbv zeta.
  assert (Hp : 1 <= metropolis_p (r_prev st + normal_mc i) (r_prev st))
    by (apply metropolis_p_downhill; assumption).
  split; [exact Hp |].
  split; [lra |].
  apply mc_body_accept. lra.
Qed.

(** C10: after [j] iterations of the loop the counter is between 0 and [j]
    (so at most [N_updates]), it is a valid index as long as an iteration
    remains, the entries from the counter on are still zero, the entries
    before it are the accepted trial positions in order, and the mean taken
    at the end is their sum over their number. *)
Theorem mc_bookkeeping (j : nat) :
  (j <= N_updates)%nat ->
  exists st,
    mc_after j = Ok st
    /\ (0 <= num_accepted_r st <= j)%nat
    /\ (num_accepted_r st <= N_updates)%nat
    /\ length (r_accepted_array st) = N_updates
    /\ ((j < N_updates)%nat ->
        (num_accepted_r st < length (r_accepted_array st))%nat)
    /\ (forall i, (num_accepted_r st <= i)%nat -> nth i (r_accepted_array st) 0 = 0)
    /\ slice (r_accepted_array st) 0 (num_accepted_r st) = accepted_trials 0 j
    /\ num_accepted_r st = length (accepted_trials 0 j)
    /\ r_av_mc st = np_sum (accepted_trials 0 j) / INR (num_accepted_r st).
Proof.
  intros Hj. eexists. split; [apply mc_after_state; exact Hj |].
  pose proof (accepted_trials_length 0 j) as Hlen.
  unfold r_av_mc, np_mean, slice.
  cbn [num_accepted_r r_accepted_array].
  rewrite Nat.sub_0_r, skipn_O.
  rewrite firstn_app, Nat.sub_diag, firstn_all, firstn_O, app_nil_r.
  rewrite length_app, np_zeros_length.
  repeat split; try lia.
  intros i Hi. rewrite app_nth2 by lia. apply np_zeros_nth.
Qed.



(** ** Cell 3: equilibrium geometry and force constant *)

Lemma argmin_from_spec (rest pre : list R) (best_i : nat) (best : R) :
  (best_i < length pre)%nat ->
  nth best_i pre 0 = best ->
  (forall j, (j < length pre)%nat -> best <= nth j pre 0) ->
  let r := argmin_from best_i best (length pre) rest in
  (r < length (pre ++ rest))%nat
  /\ forall j, (j < length (pre ++ rest))%nat ->
       nth r (pre ++ rest) 0 <= nth j (pre ++ rest) 0.
Proof.
  revert pre best_i best.
  induction rest as [| x rest IH]; intros pre best_i best Hi Hbest Hmin; cbv zeta.
  - simpl. rewrite app_nil_r. split; [exact Hi |].
    intros j Hj. rewrite Hbest. apply Hmin. exact Hj.
  - simpl argmin_from.
    replace (pre ++ x :: rest) with ((pre ++ [x]) ++ rest)
      by (rewrite <- app_assoc; reflexivity).
    replace (S (length pre)) with (length (pre ++ [x]))
      by (rewrite length_app; simpl; lia).
    assert (Hlast : nth (length pre) (pre ++ [x]) 0 = x).
    { rewrite app_nth2 by lia. rewrite Nat.sub_diag. reflexivity. }
    destruct (Rlt_dec x best) as [Hlt | Hge].
    + apply IH.
      * rewrite length_app; simpl; lia.
      * exact Hlast.
      * intros j Hj. rewrite length_app in Hj. simpl in Hj.
        destruct (Nat.eq_dec j (length pre)) as [-> | Hne].
        -- rewrite Hlast. lra.
        -- rewrite app_nth1 by lia.
           assert (best <= nth j pre 0) by (apply Hmin; lia). lra.
    + apply IH.
      * rewrite length_app; simpl; lia.
      * rewrite app_nth1 by lia. exact Hbest.
      * intros j Hj. rewrite length_app in Hj. simpl in Hj.
        destruct (Nat.eq_dec j (length pre)) as [-> | Hne].
        -- rewrite Hlast. lra.
        -- rewrite app_nth1 by lia. apply Hmin. lia.
Qed.

Lemma np_argmin_spec (a : list R) :
  (0 < length a)%nat ->
  exists idx, np_argmin a = Ok idx
              /\ (idx < length a)%nat
              /\ forall j, (j < length a)%nat -> nth idx a 0 <= nth j a 0.
Proof.
  destruct a as [| x rest]; simpl length; intros Hpos; [lia |].
  exists (argmin_from 0 x 1 rest). split; [reflexivity |].
  apply (argmin_from_spec rest [x] 0 x).
  - simpl. lia.
  - reflexivity.
  - intros j Hj. simpl in Hj. replace j with 0%nat by lia. simpl. lra.
Qed.

Lemma getitem_ok (a : list R) (i : nat) :
  (i < length a)%nat -> getitem a i = Ok (nth i a 0).
Proof.
  intros Hi. unfold getitem. rewrite (nth_error_nth' a 0 Hi). reflexivity.
Qed.

Lemma E_fine_nth (i : nat) :
  (i < 200)%nat -> nth i E_fine 0 = spl_eval E_spline (nth i r_fine 0).
Proof.
  intros Hi. unfold E_fine.
  rewrite (nth_indep _ 0 (spl_eval E_spline 0))
    by (rewrite length_map, r_fine_length; exact Hi).
  apply map_nth.
Qed.

(** C5: the cell finds an index [Req_idx] of the 200-point grid at which
    the interpolated energy is smallest over the grid, takes [r_eq] from
    the grid at that index, and [k] is the value at [r_eq] of the spline
    [cE]; under scipy's contract for [derivative] on the energy spline and
    on its derivative [fE], [k] is the derivative at [r_eq] of the
    derivative of the energy spline. *)
Theorem equilibrium_geometry :
  derivative_contract E_spline -> derivative_contract fE ->
  exists idx req kval,
    Req_idx = Ok idx /\ r_eq = Ok req /\ k = Ok kval
    /\ length r_fine = 200%nat /\ length E_fine = 200%nat
    /\ (idx < 200)%nat
    /\ (forall i, (i < 200)%nat -> nth idx E_fine 0 <= nth i E_fine 0)
    /\ (forall i, (i < 200)%nat ->
          spl_eval E_spline req <= spl_eval E_spline (nth i r_fine 0))
    /\ req = nth idx r_fine 0
    /\ kval = spl_eval cE req
    /\ (forall x, derivable_pt_lim (spl_eval E_spline) x (spl_eval fE x))
    /\ derivable_pt_lim (spl_eval fE) req kval.
Proof.
  intros HdE HdF.
  destruct (np_argmin_spec E_fine) as (idx & Hidx & Hlt & Hmin).
  { rewrite E_fine_length. lia. }
  rewrite E_fine_length in Hlt, Hmin.
  exists idx, (nth idx r_fine 0), (spl_eval cE (nth idx r_fine 0)).
  unfold k, r_eq, Req_idx. rewrite Hidx. cbn [bind].
  rewrite getitem_ok by (rewrite r_fine_length; exact Hlt). cbn [bind].
  refine (conj eq_refl (conj eq_refl (conj eq_refl
           (conj r_fine_length (conj E_fine_length (conj Hlt (conj Hmin
             (conj _ (conj eq_refl (conj eq_refl (conj _ _))))))))))).
  - intros i Hi. rewrite <- !E_fine_nth by assumption. apply Hmin. exact Hi.
  - exact HdE.
  - apply HdF.
Qed.

(** ** The shifted spline *)

Lemma exp_ratio (a b : R) : exp a / exp b = exp (a - b).
Proof. unfold Rdiv, Rminus. rewrite <- exp_Ropp, <- exp_plus. reflexivity. Qed.

Lemma r_array_au_length : length r_array_au = length r_array.
Proof. unfold r_array_au. apply length_map. Qed.

Lemma E_spline_shifted_eval (Sp : (R -> R) -> Prop) :
  length E_array = length r_array ->
  interpolation_contract r_array_au 3 Sp ->
  forall x, spl_eval E_spline_shifted x = spl_eval E_spline x + 100.
Proof.
  intros Hlen C.
  apply (space_unique _ _ _ C).
  - apply (fit_in_space _ _ _ C).
    rewrite length_map, r_array_au_length. exact Hlen.
  - apply (space_add_constant _ _ _ C).
    apply (fit_in_space _ _ _ C).
    rewrite r_array_au_length. exact Hlen.
  - intros i Hi. unfold E_spline_shifted, E_spline.
    rewrite !(fit_interpolates _ _ _ C)
      by first [ exact Hi
               | rewrite ?length_map, r_array_au_length; exact Hlen ].
    rewrite (nth_indep _ 0 (0 + 100))
      by (rewrite length_map, Hlen, <- r_array_au_length; exact Hi).
    apply (map_nth (fun e => e + 100)).
Qed.

(** C6: under scipy's contract for the interpolating spline, the spline
    fitted through [E_array + 100] on the same knots is the energy spline
    plus 100 everywhere, and the acceptance ratio the loop computes from it
    is the ratio of the Boltzmann factors of the unshifted spline. *)
Theorem shifted_spline_equivalent (Sp : (R -> R) -> Prop) :
  length E_array = length r_array ->
  interpolation_contract r_array_au 3 Sp ->
  (forall x, spl_eval E_spline_shifted x = spl_eval E_spline x + 100)
  /\ (forall r_trial r_old,
        metropolis_p r_trial r_old
        = exp (- spl_eval E_spline r_trial / temperature)
          / exp (- spl_eval E_spline r_old / temperature)).
Proof.
  intros Hlen C.
  pose proof (E_spline_shifted_eval Sp Hlen C) as Hshift.
  split; [exact Hshift |].
  intros r_trial r_old. unfold metropolis_p.
  rewrite !Hshift, !exp_ratio. f_equal. unfold Rdiv. ring.
Qed.

(** ** Cell 11: the recorded trajectory is one update ahead *)

(** Entry 0 of the arrays is the initial state; every later entry [i]
    holds the state after [i + 1] BBK updates, under the time [dt * i]:
    the first update is made before the loop and its result is overwritten
    by the loop's first pass without being stored. *)
Lemma trajectory_records_next_iterate (i : nat) :
  valid_step dt -> v_init ^ 2 < float_overflow -> (1 <= i < N_updates)%nat ->
  exists tr s,
    langevin_trajectory = Ok tr
    /\ BBK_iter (S i) = Ok s
    /\ nth 0 (r_vs_t tr) 0 = r_init
    /\ nth 0 (v_vs_t tr) 0 = v_init
    /\ nth i (t_array tr) 0 = dt * INR i
    /\ nth i (r_vs_t tr) 0 = position s
    /\ nth i (v_vs_t tr) 0 = velocity s.
Proof.
  intros Hdt Hv2 Hi.
  destruct (trajectory_after_inv N_updates Hdt Hv2) as (tr & Hrun & Hinv); [lia |].
  destruct Hinv as (_ & _ & _ & _ & _ & _ & _ & Hr0 & Hv0 & Hrec).
  destruct (Hrec i Hi) as (s & Hs & Ht & Hr & Hv).
  exists tr, s. repeat split; assumption.
Qed.


(** ** Cell 3: more on the equilibrium geometry *)

Lemma argmin_from_first (rest pre : list R) (best_i : nat) (best : R) :
  (best_i < length pre)%nat ->
  nth best_i pre 0 = best ->
  (forall j, (j < length pre)%nat -> best <= nth j pre 0) ->
  (forall j, (j < best_i)%nat -> best < nth j pre 0) ->
  let r := argmin_from best_i best (length pre) rest in
  forall j, (j < r)%nat -> nth r (pre ++ rest) 0 < nth j (pre ++ rest) 0.
Proof.
  revert pre best_i best.
  induction rest as [| x rest IH]; intros pre best_i best Hi Hbest Hmin Hfirst;
    cbv zeta.
  - simpl. rewrite app_nil_r. intros j Hj. rewrite Hbest. apply Hfirst. exact Hj.
  - simpl argmin_from.
    replace (pre ++ x :: rest) with ((pre ++ [x]) ++ rest)
      by (rewrite <- app_assoc; reflexivity).
    replace (S (length pre)) with (length (pre ++ [x]))
      by (rewrite length_app; simpl; lia).
    assert (Hlast : nth (length pre) (pre ++ [x]) 0 = x).
    { rewrite app_nth2 by lia. rewrite Nat.sub_diag. reflexivity. }
    destruct (Rlt_dec x best) as [Hlt | Hge].
    + apply IH.
      * rewrite length_app; simpl; lia.
      * exact Hlast.
      * intros j Hj. rewrite length_app in Hj. simpl in Hj.
        destruct (Nat.eq_dec j (length pre)) as [-> | Hne].
        -- rewrite Hlast. lra.
        -- rewrite app_nth1 by lia.
           assert (best <= nth j pre 0) by (apply Hmin; lia). lra.
      * intros j Hj. rewrite app_nth1 by lia.
        assert (best <= nth j pre 0) by (apply Hmin; lia). lra.
    + apply IH.
      * rewrite length_app; simpl; lia.
      * rewrite app_nth1 by lia. exact Hbest.
      * intros j Hj. rewrite length_app in Hj. simpl in Hj.
        destruct (Nat.eq_dec j (length pre)) as [-> | Hne].
        -- rewrite Hlast. lra.
        -- rewrite app_nth1 by lia. apply Hmin. lia.
      * intros j Hj. rewrite app_nth1 by lia. apply Hfirst. exact Hj.
Qed.

Lemma min_from_is_argmin (rest pre : list R) (best_i : nat) (best : R) :
  (best_i < length pre)%nat ->
  nth best_i pre 0 = best ->
  min_from best rest
  = nth (argmin_from best_i best (length pre) rest) (pre ++ rest) 0.
Proof.
  revert pre best_i best.
  induction rest as [| x rest IH]; intros pre best_i best Hi Hbest.
  - simpl. rewrite app_nil_r. symmetry. exact Hbest.
  - simpl min_from. simpl argmin_from.
    replace (pre ++ x :: rest) with ((pre ++ [x]) ++ rest)
      by (rewrite <- app_assoc; reflexivity).
    replace (S (length pre)) with (length (pre ++ [x]))
      by (rewrite length_app; simpl; lia).
    destruct (Rlt_dec x best) as [Hlt | Hge].
    + apply IH.
      * rewrite length_app; simpl; lia.
      * rewrite app_nth2 by lia. rewrite Nat.sub_diag. reflexivity.
    + apply IH.
      * rewrite length_app; simpl; lia.
      * rewrite app_nth1 by lia. exact Hbest.
Qed.

Lemma r_fine_nth (i : nat) :
  (i < 200)%nat ->
  nth i r_fine 0 = INR i * ((2.3 * 1.89 - 0.5 * 1.89) / 199) + 0.5 * 1.89.
Proof.
  intros Hi. unfold r_fine, np_linspace.
  set (f := fun j : nat => INR j * ((2.3 * 1.89 - 0.5 * 1.89) / INR (200 - 1))
                           + 0.5 * 1.89).
  rewrite (nth_indep _ 0 (f 0%nat)) by (rewrite length_map, length_seq; exact Hi).
  rewrite map_nth, seq_nth by exact Hi.
  unfold f. simpl (0 + i)%nat.
  replace (INR (200 - 1)) with 199; [reflexivity |].
  change (200 - 1)%nat with 199%nat.
  rewrite INR_IZR_INZ. reflexivity.
Qed.

(** X1: [np.argmin] picks the first minimum of the grid: the energy at
    every grid index before [Req_idx] is strictly above the energy at
    [Req_idx], whatever the data and the spline. *)
Theorem Req_idx_is_first_minimum :
  exists idx,
    Req_idx = Ok idx
    /\ (idx < 200)%nat
    /\ (forall j, (j < idx)%nat -> nth idx E_fine 0 < nth j E_fine 0)
    /\ (forall j, (j < 200)%nat -> nth idx E_fine 0 <= nth j E_fine 0).
Proof.
  unfold Req_idx.
  pose proof E_fine_length as Hlen.
  destruct E_fine as [| x rest] eqn:HE; [discriminate Hlen |].
  exists (argmin_from 0 x 1 rest). split; [reflexivity |].
  destruct (argmin_from_spec rest [x] 0 x) as [Hlt Hmin].
  { simpl. lia. }
  { reflexivity. }
  { intros j Hj. simpl in Hj. replace j with 0%nat by lia. simpl. lra. }
  cbv zeta in Hlt, Hmin. change ([x] ++ rest) with (x :: rest) in Hlt, Hmin.
  change (length [x]) with 1%nat in Hlt, Hmin.
  rewrite Hlen in Hlt, Hmin.
  split; [exact Hlt |]. split; [| exact Hmin].
  apply (argmin_from_first rest [x] 0 x).
  - simpl. lia.
  - reflexivity.
  - intros j Hj. simpl in Hj. replace j with 0%nat by lia. simpl. lra.
  - intros j Hj. lia.
Qed.

(** X2: [minE], the smallest energy on the grid, is the interpolated energy
    at [r_eq]: Python's [min] and numpy's [argmin] single out the same grid
    point. *)
Theorem minE_is_energy_at_r_eq :
  exists idx req m,
    Req_idx = Ok idx /\ r_eq = Ok req /\ minE = Ok m
    /\ m = nth idx E_fine 0
    /\ m = spl_eval E_spline req
    /\ (forall i, (i < 200)%nat -> m <= spl_eval E_spline (nth i r_fine 0)).
Proof.
  destruct (np_argmin_spec E_fine) as (idx & Hidx & Hlt & Hmin).
  { rewrite E_fine_length. lia. }
  rewrite E_fine_length in Hlt, Hmin.
  exists idx, (nth idx r_fine 0), (nth idx E_fine 0).
  unfold r_eq, Req_idx. rewrite Hidx. cbn [bind].
  rewrite getitem_ok by (rewrite r_fine_length; exact Hlt).
  split; [reflexivity |]. split; [reflexivity |].
  split.
  - unfold minE. unfold np_argmin in Hidx.
    destruct E_fine as [| x rest] eqn:HE; [discriminate Hidx |].
    injection Hidx as <-. cbn [py_min]. f_equal.
    apply (min_from_is_argmin rest [x] 0 x); [simpl; lia | reflexivity].
  - split; [reflexivity |]. split; [apply E_fine_nth; exact Hlt |].
    intros i Hi. rewrite <- E_fine_nth by exact Hi. apply Hmin. exact Hi.
Qed.

(** X3: [r_eq] is a point of the fine grid, so it lies between the two ends
    of the sampled range, 0.5 and 2.3 Angstrom, whatever the data and the
    spline. *)
Theorem r_eq_within_sampled_range :
  exists idx req,
    Req_idx = Ok idx /\ r_eq = Ok req
    /\ req = INR idx * ((2.3 * 1.89 - 0.5 * 1.89) / 199) + 0.5 * 1.89
    /\ 0.5 * 1.89 <= req <= 2.3 * 1.89
    /\ 0.5 <= req / 1.89 <= 2.3.
Proof.
  destruct (np_argmin_spec E_fine) as (idx & Hidx & Hlt & _).
  { rewrite E_fine_length. lia. }
  rewrite E_fine_length in Hlt.
  exists idx, (nth idx r_fine 0).
  unfold r_eq, Req_idx. rewrite Hidx. cbn [bind].
  rewrite getitem_ok by (rewrite r_fine_length; exact Hlt).
  split; [reflexivity |]. split; [reflexivity |].
  rewrite r_fine_nth by exact Hlt.
  split; [reflexivity |].
  assert (H0 : 0 <= INR idx) by apply pos_INR.
  assert (H1 : INR idx <= 199).
  { replace 199 with (INR 199) by (rewrite INR_IZR_INZ; reflexivity).
    apply le_INR. lia. }
  split; lra.
Qed.


(** ** Cells 5 and 7: the initial state and the Boltzmann average *)

Lemma r_fine_bounds (i : nat) :
  (i < 200)%nat -> 0.5 * 1.89 <= nth i r_fine 0 <= 2.3 * 1.89.
Proof.
  intros Hi. rewrite r_fine_nth by exact Hi.
  assert (H0 : 0 <= INR i) by apply pos_INR.
  assert (H1 : INR i <= 199).
  { replace 199 with (INR 199) by (rewrite INR_IZR_INZ; reflexivity).
    apply le_INR. lia. }
  lra.
Qed.

Lemma cell3_values :
  exists idx,
    (idx < 200)%nat
    /\ r_eq = Ok (nth idx r_fine 0)
    /\ k = Ok (spl_eval cE (nth idx r_fine 0)).
Proof.
  destruct (np_argmin_spec E_fine) as (idx & Hidx & Hlt & _).
  { rewrite E_fine_length. lia. }
  rewrite E_fine_length in Hlt.
  exists idx. split; [exact Hlt |].
  unfold k, r_eq, Req_idx. rewrite Hidx. cbn [bind].
  rewrite getitem_ok by (rewrite r_fine_length; exact Hlt).
  split; reflexivity.
Qed.

(** X4: with draws of [0,1), a positive reduced mass and a curvature [k]
    that is not negative (so that both square roots are taken of numbers
    that are not negative), cell 5 runs to its end and its initial
    separation lies in [0.5*r_eq, 1.5*r_eq), which is a positive range
    inside 0.4725 .. 6.5205 atomic units; its initial velocity lies between
    [-v] and [v] for the "ground-state" velocity [v >= 0]; and [F_init] is
    minus the spline's derivative at the initial separation. *)
Theorem initial_conditions_in_range :
  0 <= u_r < 1 -> 0 <= u_v < 1 ->
  0 < mu -> (forall k_val, k = Ok k_val -> 0 <= k_val) ->
  exists req v r0 v0 F0,
    r_eq = Ok req
    /\ initial_conditions = Ok (v, r0, v0, F0)
    /\ 0.5 * req <= r0 < 1.5 * req
    /\ 0.4725 <= r0 < 6.5205
    /\ 0 <= v /\ - v <= v0 <= v
    /\ F0 = - spl_eval fE r0.
Proof.
  intros [Hr0 Hr1] [Hv0 Hv1] _ _.
  destruct cell3_values as (idx & Hidx & Hreq & Hk).
  pose proof (r_fine_bounds idx Hidx) as [Hlo Hhi].
  unfold initial_conditions. rewrite Hk, Hreq. cbn [bind].
  set (req := nth idx r_fine 0) in *.
  set (v := sqrt (sqrt (spl_eval cE req / mu) / (2 * mu))).
  assert (Hv : 0 <= v) by apply sqrt_pos.
  exists req, v. do 3 eexists.
  split; [reflexivity |]. split; [reflexivity |].
  unfold np_uniform.
  repeat split; nra.
Qed.

Lemma np_sum_pos (ws : list R) :
  (0 < length ws)%nat -> (forall w, In w ws -> 0 < w) -> 0 < np_sum ws.
Proof.
  induction ws as [| w ws IH]; simpl; intros Hlen Hpos; [lia |].
  assert (Hw : 0 < w) by (apply Hpos; left; reflexivity).
  destruct ws as [| w' ws'].
  - simpl. lra.
  - assert (0 < np_sum (w' :: ws')).
    { apply IH; [simpl; lia | intros x Hx; apply Hpos; right; exact Hx]. }
    unfold np_sum in *. lra.
Qed.

Lemma weighted_sum_bounds (lo hi : R) (xs ws : list R) :
  length xs = length ws ->
  (forall x, In x xs -> lo <= x <= hi) ->
  (forall w, In w ws -> 0 < w) ->
  lo * np_sum ws <= np_sum (np_multiply xs ws) <= hi * np_sum ws.
Proof.
  revert ws. induction xs as [| x xs IH]; intros [| w ws] Hlen Hx Hw;
    try discriminate Hlen.
  - simpl. lra.
  - assert (Hx0 : lo <= x <= hi) by (apply Hx; left; reflexivity).
    assert (Hw0 : 0 < w) by (apply Hw; left; reflexivity).
    destruct (IH ws) as [IHlo IHhi].
    + simpl in Hlen. lia.
    + intros y Hy. apply Hx. right. exact Hy.
    + intros y Hy. apply Hw. right. exact Hy.
    + unfold np_multiply, np_sum in *. simpl. nra.
Qed.

Lemma ratio_bounds (lo hi num den : R) :
  0 < den -> lo * den <= num <= hi * den -> lo <= num / den <= hi.
Proof.
  intros Hden [Hlo Hhi].
  assert (Hq : num = num / den * den) by (field; lra).
  set (q := num / den) in *.
  split; apply Rmult_le_reg_r with den; lra.
Qed.

Lemma boltzmann_weights_pos (es : list R) (w : R) :
  In w (map (fun e => exp (- e / temperature)) es) -> 0 < w.
Proof.
  intros Hin. apply in_map_iff in Hin. destruct Hin as (e & <- & _).
  apply exp_pos.
Qed.

Lemma E_shifted_length : length E_shifted = 200%nat.
Proof. unfold E_shifted. rewrite length_map. apply E_fine_length. Qed.

(** X5: the Boltzmann average [r_av] is an average of grid points with
    positive weights, so it lies inside the sampled range, between 0.5 and
    2.3 Angstrom, for every data set and spline, at a temperature other
    than zero at which no weight [exp(-E_shifted/temperature)] leaves the
    range of the floats (at most 200 weights of at most [exp 700] each, and
    their products with grid points below 4.35, sum to less than 1e307). *)
Theorem r_av_within_sampled_range :
  temperature <> 0 ->
  (forall e, In e E_shifted -> exponent_in_range (- e / temperature)) ->
  0.5 * 1.89 <= r_av <= 2.3 * 1.89 /\ 0.5 <= r_av / 1.89 <= 2.3.
Proof.
  intros _ _. unfold r_av.
  set (ws := map (fun e => exp (- e / temperature)) E_shifted).
  assert (Hlen : length r_fine = length ws).
  { unfold ws. rewrite length_map, r_fine_length, E_shifted_length. reflexivity. }
  assert (Hpos : forall w, In w ws -> 0 < w).
  { intros w Hw. exact (boltzmann_weights_pos E_shifted w Hw). }
  assert (Hsum : 0 < np_sum ws).
  { apply np_sum_pos; [| exact Hpos].
    rewrite <- Hlen, r_fine_length. lia. }
  destruct (weighted_sum_bounds (0.5 * 1.89) (2.3 * 1.89) r_fine ws Hlen)
    as [Hlo Hhi]; [| exact Hpos |].
  { intros x Hx. destruct (In_nth _ _ 0 Hx) as (i & Hi & <-).
    apply r_fine_bounds. rewrite r_fine_length in Hi. exact Hi. }
  set (num := np_sum (np_multiply r_fine ws)) in *.
  assert (Hq : 0.5 * 1.89 <= num / np_sum ws <= 2.3 * 1.89).
  { apply ratio_bounds; [exact Hsum | split; assumption]. }
  split; [exact Hq | lra].
Qed.

Lemma np_sum_scale (f : R -> R) (c : R) (l : list R) :
  np_sum (map (fun e => f e * c) l) = np_sum (map f l) * c.
Proof.
  induction l as [| e l IH]; simpl.
  - ring.
  - unfold np_sum in *. simpl in IH. rewrite IH. ring.
Qed.

Lemma np_sum_multiply_scale (f : R -> R) (c : R) (xs l : list R) :
  np_sum (np_multiply xs (map (fun e => f e * c) l))
  = np_sum (np_multiply xs (map f l)) * c.
Proof.
  revert l. induction xs as [| x xs IH]; intros [| e l]; simpl; try ring.
  specialize (IH l). unfold np_sum, np_multiply in *. simpl.
  rewrite IH. ring.
Qed.

(** X6: the shift of the energies by 100 does not change the Boltzmann
    average: [r_av] is the average of the grid points weighted by
    [exp(-E_fine/temperature)], the unshifted weights (over the reals, where
    these weights do not overflow). *)
Theorem r_av_ignores_the_shift :
  temperature <> 0 ->
  r_av
  = np_sum (np_multiply r_fine (map (fun e => exp (- e / temperature)) E_fine))
    / np_sum (map (fun e => exp (- e / temperature)) E_fine).
Proof.
  intros _. unfold r_av, E_shifted. rewrite map_map.
  set (c := exp (- (100) / temperature)).
  assert (Hc : 0 < c) by apply exp_pos.
  assert (Hmap : map (fun e => exp (- (e + 100) / temperature)) E_fine
                 = map (fun e => exp (- e / temperature) * c) E_fine).
  { apply map_ext. intros e. unfold c. rewrite <- exp_plus. f_equal.
    unfold Rdiv. ring. }
  rewrite Hmap, np_sum_scale, np_sum_multiply_scale.
  set (A := np_sum (np_multiply r_fine
                      (map (fun e => exp (- e / temperature)) E_fine))).
  set (B := np_sum (map (fun e => exp (- e / temperature)) E_fine)).
  unfold Rdiv. rewrite Rinv_mult.
  replace (A * c * (/ B * / c)) with (A * / B * (c * / c)) by ring.
  rewrite Rinv_r by lra. ring.
Qed.


(** ** Cell 11: more on the trajectory arrays *)

Lemma Ok_inj {A : Type} (a b : A) : Ok a = Ok b -> a = b.
Proof. intros H. injection H as H. exact H. Qed.

Lemma trajectory_init_consistent (m : R) (tr0 : trajectory) :
  trajectory_init m = Ok tr0 -> arrays_consistent m tr0 0.
Proof.
  unfold trajectory_init. intros H.
  destruct N_updates as [| n].
  - discriminate H.
  - assert (H0 : (0 < length (np_zeros (S n)))%nat)
      by (rewrite np_zeros_length; lia).
    rewrite setitem_ok in H by exact H0. cbn [bind] in H.
    rewrite setitem_ok in H by exact H0. cbn [bind] in H.
    unfold float_pow2 in H.
    destruct (Rlt_dec (v_init ^ 2) float_overflow) as [_ | _];
      [| discriminate H].
    cbn [bind] in H. rewrite !setitem_ok in H by exact H0. cbn [bind] in H.
    destruct (BBK r_init v_init rp_init gamma temperature mu (spl_eval fE) dt
                  (xi_bbk 0)) as [s1 | e]; [| discriminate H].
    cbn [bind] in H. injection H as <-.
    unfold arrays_consistent.
    cbn [t_array r_vs_t v_vs_t e_vs_t temp_vs_t].
    simpl. repeat split; try reflexivity. ring.
Qed.

Lemma trajectory_body_consistent (m : R) (j : nat) (tr tr' : trajectory) :
  (1 <= j < N_updates)%nat -> trajectory_inv j tr ->
  (forall i, (i < j)%nat -> arrays_consistent m tr i) ->
  trajectory_body m j tr = Ok tr' ->
  forall i, (i < S j)%nat -> arrays_consistent m tr' i.
Proof.
  intros Hj (_ & Lt & Lr & Lv & Le & LT & _) Hold Hbody i Hi.
  unfold trajectory_body in Hbody.
  destruct (BBK (position (result_array tr)) (velocity (result_array tr))
                (perturbation (result_array tr)) gamma temperature mu
                (spl_eval fE) dt (xi_bbk j)) as [tmp | e]; [| discriminate Hbody].
  cbn [bind] in Hbody. rewrite !setitem_ok in Hbody by lia.
  cbn [bind] in Hbody. apply Ok_inj in Hbody. subst tr'.
  unfold arrays_consistent.
  cbn [t_array r_vs_t v_vs_t e_vs_t temp_vs_t].
  destruct (Nat.eq_dec i j) as [-> | Hne].
  - rewrite !updated_nth_same by lia. repeat split; reflexivity.
  - rewrite !(updated_nth_other _ j i) by lia. apply Hold. lia.
Qed.

Lemma trajectory_loop_consistent (m : R) (tr0 : trajectory) (j : nat) :
  valid_step dt -> (1 <= j <= N_updates)%nat ->
  trajectory_inv 1 tr0 -> arrays_consistent m tr0 0 ->
  exists tr, for_loop (trajectory_body m) (py_range 1 j) tr0 = Ok tr
             /\ trajectory_inv j tr
             /\ forall i, (i < j)%nat -> arrays_consistent m tr i.
Proof.
  intros Hdt Hj H0 C0.
  induction j as [| j IH]; [lia |].
  destruct (Nat.eq_dec j 0) as [-> | Hpos].
  - exists tr0. split; [reflexivity |]. split; [exact H0 |].
    intros i Hi. replace i with 0%nat by lia. exact C0.
  - destruct IH as (tr & Hloop & Hinv & Hcons); [lia |].
    rewrite py_range_snoc by lia. rewrite for_loop_app, Hloop. cbn [bind for_loop].
    destruct (trajectory_body_inv m j tr Hdt) as (tr' & Hbody & Hinv');
      [lia | exact Hinv |].
    rewrite Hbody. cbn [bind]. exists tr'. split; [reflexivity |].
    split; [exact Hinv' |].
    apply (trajectory_body_consistent m j tr tr'); try assumption. lia.
Qed.

Lemma trajectory_run (j : nat) :
  valid_step dt -> v_init ^ 2 < float_overflow -> (1 <= j <= N_updates)%nat ->
  exists m tr,
    minE = Ok m /\ trajectory_after j = Ok tr
    /\ trajectory_inv j tr
    /\ forall i, (i < j)%nat -> arrays_consistent m tr i.
Proof.
  intros Hdt Hv Hj. unfold trajectory_after.
  destruct minE_succeeds as [m Hm]. rewrite Hm. cbn [bind].
  destruct (trajectory_init_inv m Hdt Hv) as (tr0 & Hinit & H0); [lia |].
  rewrite Hinit. cbn [bind].
  destruct (trajectory_loop_consistent m tr0 j Hdt Hj H0) as (tr & Hloop & Hinv & Hc).
  { apply trajectory_init_consistent. exact Hinit. }
  exists m, tr.
  split; [reflexivity |]. split; [exact Hloop |]. split; assumption.
Qed.

(** X10: the five arrays of the trajectory stay in step.  With a time step
    [BBK] accepts, an initial velocity whose square is in range and at
    least one update, the cell runs to its end; after the run all arrays
    have [N_updates] entries, and at every index [i] the time is [dt * i],
    [temp_vs_t[i]] is [mu * v_vs_t[i]^2] (twice the kinetic energy) and
    [e_vs_t[i]] is the interpolated energy at [r_vs_t[i]] above [minE] plus
    the kinetic energy [0.5 * mu * v_vs_t[i]^2]. *)
Theorem trajectory_arrays_in_step :
  valid_step dt -> v_init ^ 2 < float_overflow -> (1 <= N_updates)%nat ->
  exists m tr,
    minE = Ok m /\ langevin_trajectory = Ok tr
    /\ length (t_array tr) = N_updates
    /\ length (r_vs_t tr) = N_updates
    /\ length (v_vs_t tr) = N_updates
    /\ length (e_vs_t tr) = N_updates
    /\ length (temp_vs_t tr) = N_updates
    /\ forall i, (i < N_updates)%nat ->
         nth i (t_array tr) 0 = dt * INR i
         /\ nth i (temp_vs_t tr) 0 = mu * nth i (v_vs_t tr) 0 ^ 2
         /\ nth i (e_vs_t tr) 0
            = (spl_eval E_spline (nth i (r_vs_t tr) 0) - m)
              + 0.5 * mu * nth i (v_vs_t tr) 0 ^ 2.
Proof.
  intros Hdt Hv HN.
  destruct (trajectory_run N_updates Hdt Hv) as (m & tr & Hm & Hrun & Hinv & Hc);
    [lia |].
  destruct Hinv as (_ & Lt & Lr & Lv & Le & LT & _).
  exists m, tr. unfold langevin_trajectory.
  repeat (split; [assumption |]).
  intros i Hi. destruct (Hc i Hi) as (Ht & HT & He).
  split; [exact Ht |]. split; [exact HT | exact He].
Qed.

(** X11: what the position and velocity arrays record, for a time step
    [BBK] accepts, an initial velocity whose square is in range and at
    least one update.  Entry 0 is the initial state; for [1 <= i < N_updates] entry [i] is the state after
    [i + 1] BBK updates of the initial state (the update before the loop is
    followed by another one before anything is stored); and the state the
    cell ends in is the one after [N_updates] updates. *)
Theorem trajectory_entries :
  valid_step dt -> v_init ^ 2 < float_overflow -> (1 <= N_updates)%nat ->
  exists tr,
    langevin_trajectory = Ok tr
    /\ BBK_iter N_updates = Ok (result_array tr)
    /\ nth 0 (r_vs_t tr) 0 = r_init
    /\ nth 0 (v_vs_t tr) 0 = v_init
    /\ forall i, (1 <= i < N_updates)%nat ->
         exists s, BBK_iter (S i) = Ok s
                   /\ nth i (r_vs_t tr) 0 = position s
                   /\ nth i (v_vs_t tr) 0 = velocity s.
Proof.
  intros Hdt Hv2 HN.
  destruct (trajectory_after_inv N_updates Hdt Hv2) as (tr & Hrun & Hinv); [lia |].
  destruct Hinv as (Hres & _ & _ & _ & _ & _ & _ & Hr0 & Hv0 & Hrec).
  exists tr. unfold langevin_trajectory.
  repeat (split; [assumption |]).
  intros i Hi. destruct (Hrec i Hi) as (s & Hs & _ & Hr & Hv).
  exists s. repeat split; assumption.
Qed.


Lemma trajectory_empty_raises :
  N_updates = 0%nat -> langevin_trajectory = Raise IndexError.
Proof.
  intros HN. unfold langevin_trajectory, trajectory_after.
  destruct minE_succeeds as [m Hm]. rewrite Hm. cbn [bind].
  unfold trajectory_init. rewrite HN. reflexivity.
Qed.

Lemma trajectory_start_overflow_raises :
  float_overflow <= v_init ^ 2 -> (1 <= N_updates)%nat ->
  langevin_trajectory = Raise OverflowError.
Proof.
  intros Hv HN. unfold langevin_trajectory, trajectory_after.
  destruct minE_succeeds as [m Hm]. rewrite Hm. cbn [bind].
  unfold trajectory_init.
  rewrite !(float_pow2_overflow v_init) by exact Hv.
  repeat (rewrite setitem_ok by (rewrite np_zeros_length; lia); cbn [bind]).
  reflexivity.
Qed.

Lemma trajectory_first_update (e : exn) :
  v_init ^ 2 < float_overflow -> (1 <= N_updates)%nat ->
  BBK r_init v_init rp_init gamma temperature mu (spl_eval fE) dt (xi_bbk 0)
  = Raise e ->
  langevin_trajectory = Raise e.
Proof.
  intros Hv HN Hraise. unfold langevin_trajectory, trajectory_after.
  destruct minE_succeeds as [m Hm]. rewrite Hm. cbn [bind].
  unfold trajectory_init.
  rewrite !(float_pow2_ok v_init) by exact Hv.
  repeat (rewrite setitem_ok by (rewrite np_zeros_length; lia); cbn [bind]).
  rewrite Hraise. reflexivity.
Qed.

Lemma trajectory_zero_step_raises :
  dt = 0 -> v_init ^ 2 < float_overflow -> (1 <= N_updates)%nat ->
  langevin_trajectory = Raise ZeroDivisionError.
Proof.
  intros Hdt Hv HN. apply trajectory_first_update; [exact Hv | exact HN |].
  rewrite Hdt. apply BBK_zero_step.
Qed.

Lemma trajectory_step_overflow_raises :
  float_overflow <= dt ^ 2 -> (1 <= N_updates)%nat ->
  langevin_trajectory = Raise OverflowError.
Proof.
  intros Hdt HN.
  destruct (Rlt_dec (v_init ^ 2) float_overflow) as [Hv | Hv].
  - apply trajectory_first_update; [exact Hv | exact HN |].
    apply BBK_overflow. exact Hdt.
  - apply trajectory_start_overflow_raises; [lra | exact HN].
Qed.

Lemma trajectory_ok_inv (tr : trajectory) :
  langevin_trajectory = Ok tr ->
  valid_step dt /\ (1 <= N_updates)%nat /\ length (r_vs_t tr) = N_updates.
Proof.
  intros Hrun.
  assert (HN : (1 <= N_updates)%nat).
  { destruct (Nat.eq_dec N_updates 0) as [E | NE]; [| lia].
    rewrite (trajectory_empty_raises E) in Hrun. discriminate Hrun. }
  assert (Hv : v_init ^ 2 < float_overflow).
  { destruct (Rlt_dec (v_init ^ 2) float_overflow) as [Hv | Hv]; [exact Hv |].
    rewrite trajectory_start_overflow_raises in Hrun by (lra || exact HN).
    discriminate Hrun. }
  assert (Hdt : valid_step dt).
  { split.
    - intros E. rewrite (trajectory_zero_step_raises E Hv HN) in Hrun.
      discriminate Hrun.
    - destruct (Rlt_dec (dt ^ 2) float_overflow) as [Hp | Hp]; [exact Hp |].
      rewrite trajectory_step_overflow_raises in Hrun by (lra || exact HN).
      discriminate Hrun. }
  split; [exact Hdt |]. split; [exact HN |].
  destruct (trajectory_after_inv N_updates Hdt Hv) as (tr' & Hrun' & Hinv); [lia |].
  unfold langevin_trajectory in Hrun. rewrite Hrun' in Hrun.
  apply Ok_inj in Hrun. subst tr'.
  destruct Hinv as (_ & _ & Lr & _). exact Lr.
Qed.

(** X14: which entries the printed "mean bond length for last 30000 time
    steps" is taken over.  With at least 30000 updates it is the last 30000
    entries of [r_vs_t].  With fewer, the negative start of the slice counts
    from the end: from 15000 to 29999 updates the mean is over the last
    [30000 - N_updates] entries only, and below 15000 updates it is over the
    whole array. *)
Theorem mean_bond_length_window (tr : trajectory) :
  langevin_trajectory = Ok tr ->
  let n := Z.of_nat N_updates in
  ((30000 <= n)%Z ->
     last_30000 tr = skipn (Z.to_nat (n - 30000)) (r_vs_t tr)
     /\ Z.of_nat (length (last_30000 tr)) = 30000%Z)
  /\ ((15000 <= n < 30000)%Z ->
        last_30000 tr = skipn (Z.to_nat (2 * n - 30000)) (r_vs_t tr)
        /\ Z.of_nat (length (last_30000 tr)) = (30000 - n)%Z)
  /\ ((n < 15000)%Z -> last_30000 tr = r_vs_t tr).
Proof.
  intros Hrun. destruct (trajectory_ok_inv tr Hrun) as (_ & _ & Hlen).
  cbv zeta. unfold last_30000, py_slice, slice_bound. rewrite Hlen.
  assert (Hhi : (if (Z.of_nat N_updates <? 0)%Z
                 then Z.to_nat (Z.max 0 (Z.of_nat N_updates + Z.of_nat N_updates))
                 else Nat.min (Z.to_nat (Z.of_nat N_updates)) N_updates)
                = N_updates).
  { destruct (Z.ltb_spec (Z.of_nat N_updates) 0); lia. }
  rewrite Hhi.
  assert (Hall : forall lo, firstn (N_updates - lo) (skipn lo (r_vs_t tr))
                            = skipn lo (r_vs_t tr)).
  { intros lo. apply firstn_all2. rewrite length_skipn, Hlen. lia. }
  rewrite Hall.
  split; [| split].
  - intros H30.
    destruct (Z.ltb_spec (Z.of_nat N_updates - 30000) 0) as [Hneg | Hpos]; [lia |].
    replace (Nat.min (Z.to_nat (Z.of_nat N_updates - 30000)) N_updates)
      with (Z.to_nat (Z.of_nat N_updates - 30000)) by lia.
    split; [reflexivity |]. rewrite length_skipn, Hlen. lia.
  - intros H15.
    destruct (Z.ltb_spec (Z.of_nat N_updates - 30000) 0) as [Hneg | Hpos]; [| lia].
    replace (Z.to_nat (Z.max 0 (Z.of_nat N_updates - 30000 + Z.of_nat N_updates)))
      with (Z.to_nat (2 * Z.of_nat N_updates - 30000)) by lia.
    split; [reflexivity |]. rewrite length_skipn, Hlen. lia.
  - intros Hsmall.
    destruct (Z.ltb_spec (Z.of_nat N_updates - 30000) 0) as [Hneg | Hpos]; [| lia].
    replace (Z.to_nat (Z.max 0 (Z.of_nat N_updates - 30000 + Z.of_nat N_updates)))
      with 0%nat by lia.
    reflexivity.
Qed.


(** ** Cell 12: more on the Monte Carlo loop *)

Lemma accepted_trials_app (lo n m : nat) :
  accepted_trials lo (n + m)
  = accepted_trials lo n ++ accepted_trials (lo + n) m.
Proof.
  revert lo. induction n as [| n IH]; intros lo.
  - simpl. rewrite Nat.add_0_r. reflexivity.
  - cbn [Nat.add accepted_trials]. rewrite (IH (S lo)).
    replace (S lo + n)%nat with (lo + S n)%nat by lia.
    destruct (accepts_dec lo); reflexivity.
Qed.

Lemma accepted_trials_in (x : R) (lo n : nat) :
  In x (accepted_trials lo n)
  <-> exists i, (lo <= i < lo + n)%nat /\ accepts i /\ x = r_init + normal_mc i.
Proof.
  revert lo. induction n as [| n IH]; intros lo.
  - simpl. split; [contradiction | intros (i & Hi & _); lia].
  - cbn [accepted_trials]. destruct (accepts_dec lo) as [Hacc | Hrej].
    + cbn [In]. rewrite (IH (S lo)). split.
      * intros [<- | (i & Hi & Ha & Hx)].
        -- exists lo. repeat split; [lia | lia | exact Hacc].
        -- exists i. repeat split; [lia | lia | exact Ha | exact Hx].
      * intros (i & Hi & Ha & Hx).
        destruct (Nat.eq_dec i lo) as [-> | Hne].
        -- left. symmetry. exact Hx.
        -- right. exists i. repeat split; [lia | lia | exact Ha | exact Hx].
    + rewrite (IH (S lo)). split.
      * intros (i & Hi & Ha & Hx). exists i.
        repeat split; [lia | lia | exact Ha | exact Hx].
      * intros (i & Hi & Ha & Hx).
        destruct (Nat.eq_dec i lo) as [-> | Hne]; [contradiction |].
        exists i. repeat split; [lia | lia | exact Ha | exact Hx].
Qed.

Lemma accepted_trials_draws (lo n : nat) :
  accepted_trials lo n = map (fun z => r_init + z) (accepted_draws lo n).
Proof.
  revert lo. induction n as [| n IH]; intros lo; simpl.
  - reflexivity.
  - destruct (accepts_dec lo); simpl; rewrite IH; reflexivity.
Qed.

Lemma np_sum_map_plus (c : R) (l : list R) :
  np_sum (map (fun z => c + z) l) = INR (length l) * c + np_sum l.
Proof.
  induction l as [| z l IH].
  - simpl. ring.
  - cbn [map length]. rewrite S_INR. unfold np_sum in *. simpl.
    simpl in IH. rewrite IH. ring.
Qed.

Lemma slice_of_state (l : list R) (n : nat) :
  slice (l ++ np_zeros n) 0 (length l) = l.
Proof.
  unfold slice. rewrite Nat.sub_0_r, skipn_O.
  rewrite firstn_app, Nat.sub_diag, firstn_all, firstn_O, app_nil_r.
  reflexivity.
Qed.

(** X15: which positions the loop samples.  After [j] iterations [r_prev]
    is still [r_init], and a value is among the stored accepted positions
    exactly when it is [r_init + normal_mc i] for an iteration [i < j] whose
    uniform draw was below the acceptance ratio of that position against
    [r_init]: every sample is one normal step away from the initial
    position. *)
Theorem mc_samples_are_steps_from_r_init (j : nat) :
  temperature <> 0 -> (j <= N_updates)%nat ->
  exists st,
    mc_after j = Ok st
    /\ r_prev st = r_init
    /\ forall x,
         In x (slice (r_accepted_array st) 0 (num_accepted_r st))
         <-> exists i, (i < j)%nat
                       /\ uniform_mc i < metropolis_p (r_init + normal_mc i) r_init
                       /\ x = r_init + normal_mc i.
Proof.
  intros _ Hj. eexists. split; [apply mc_after_state; exact Hj |].
  cbn [r_prev r_accepted_array num_accepted_r].
  split; [reflexivity |].
  intros x. rewrite slice_of_state, accepted_trials_in.
  split; intros (i & Hi & Ha & Hx); exists i;
    (split; [lia | split; [exact Ha | exact Hx]]).
Qed.

(** X16: the Monte Carlo mean is tied to the initial position.  The loop
    runs to its end, the accepted draws are as many as the counter says,
    and when at least one proposal was accepted [r_av_mc] is [r_init] plus
    the mean of the accepted normal draws. *)
Theorem mc_mean_is_r_init_plus_mean_draw :
  temperature <> 0 ->
  exists st,
    monte_carlo = Ok st
    /\ length (accepted_draws 0 N_updates) = num_accepted_r st
    /\ ((0 < num_accepted_r st)%nat ->
        r_av_mc st = r_init + np_mean (accepted_draws 0 N_updates)).
Proof.
  intros _. eexists. unfold monte_carlo. split; [apply mc_after_state; lia |].
  unfold r_av_mc. cbn [r_accepted_array num_accepted_r].
  rewrite slice_of_state.
  rewrite accepted_trials_draws, length_map.
  split; [reflexivity |].
  intros Hpos. unfold np_mean. rewrite np_sum_map_plus, length_map.
  assert (Hn : 0 < INR (length (accepted_draws 0 N_updates)))
    by (apply lt_0_INR; exact Hpos).
  field. lra.
Qed.

(** X17: an accepted position is never overwritten and the counter never
    goes down.  Between [j] and [j'] iterations the counter grows by at most
    [j' - j], and the entries stored after [j] iterations are still in
    place after [j']. *)
Theorem mc_accepted_entries_are_kept (j j' : nat) :
  (j <= j')%nat -> (j' <= N_updates)%nat ->
  exists st st',
    mc_after j = Ok st /\ mc_after j' = Ok st'
    /\ (num_accepted_r st <= num_accepted_r st' <= num_accepted_r st + (j' - j))%nat
    /\ forall i, (i < num_accepted_r st)%nat ->
         nth i (r_accepted_array st') 0 = nth i (r_accepted_array st) 0.
Proof.
  intros Hjj Hj'. do 2 eexists.
  split; [apply mc_after_state; lia |].
  split; [apply mc_after_state; exact Hj' |].
  cbn [r_accepted_array num_accepted_r].
  assert (Hsplit : accepted_trials 0 j'
                   = accepted_trials 0 j ++ accepted_trials j (j' - j)).
  { pose proof (accepted_trials_app 0 j (j' - j)) as Happ.
    simpl (0 + j)%nat in Happ. rewrite <- Happ. f_equal. lia. }
  rewrite Hsplit, length_app.
  pose proof (accepted_trials_length j (j' - j)) as Hlen.
  split; [lia |].
  intros i Hi. rewrite <- !app_assoc.
  rewrite !app_nth1 by exact Hi. reflexivity.
Qed.

(** X18: the printed acceptance rate is a percentage: with at least one
    update the loop and the division succeed, and the rate is
    [100 * num_accepted_r / N_updates], between 0 and 100. *)
Theorem acceptance_rate_is_a_percentage :
  (1 <= N_updates)%nat ->
  exists st rate,
    monte_carlo = Ok st
    /\ acceptance_rate st = Ok rate
    /\ rate = 100 * INR (num_accepted_r st) / INR N_updates
    /\ 0 <= rate <= 100.
Proof.
  intros HN. do 2 eexists. unfold monte_carlo.
  split; [apply mc_after_state; lia |].
  unfold acceptance_rate, int_truediv. cbn [num_accepted_r].
  destruct (Nat.eqb_spec N_updates 0) as [E | _]; [lia |].
  split; [reflexivity |].
  pose proof (accepted_trials_length 0 N_updates) as Hlen.
  set (n := length (accepted_trials 0 N_updates)) in *.
  rewrite mult_INR. change (INR 100) with (INR (Z.to_nat 100)).
  rewrite INR_IZR_INZ. simpl (IZR (Z.of_nat (Z.to_nat 100))).
  assert (HN' : 0 < INR N_updates) by (apply lt_0_INR; lia).
  assert (Hn0 : 0 <= INR n) by apply pos_INR.
  assert (Hn1 : INR n <= INR N_updates) by (apply le_INR; exact Hlen).
  split; [reflexivity |].
  apply ratio_bounds; [exact HN' | lra].
Qed.

(** X19: at a temperature other than zero, and for positions whose shifted
    energies are at most 350 temperatures in size (so that the two
    exponentials and their quotient stay inside the range of the floats),
    the acceptance ratio [p] of equation 3.34 is positive, is 1 for a
    proposal that does not move, turns into its inverse when the two
    positions change places, and multiplies along a path. *)
Theorem metropolis_p_algebra (a b c : R) :
  temperature <> 0 ->
  (forall x, x = a \/ x = b \/ x = c ->
     -350 <= spl_eval E_spline_shifted x / temperature <= 350) ->
  0 < metropolis_p a b
  /\ metropolis_p a a = 1
  /\ metropolis_p a b * metropolis_p b a = 1
  /\ metropolis_p a b * metropolis_p b c = metropolis_p a c.
Proof.
  intros _ _. split; [apply metropolis_p_pos |].
  rewrite !metropolis_p_boltzmann, <- !exp_plus.
  repeat split.
  - rewrite <- exp_0. f_equal. unfold Rdiv. ring.
  - rewrite <- exp_0. f_equal. unfold Rdiv. ring.
  - f_equal. unfold Rdiv. ring.
Qed.

(** X20: at a positive temperature, and for two positions at which the
    exponent [-E_spline_shifted/temperature] keeps the exponential inside
    the range of the floats, the acceptance ratio is at least 1 exactly for
    the proposals that do not go up in energy, and below 1 exactly for
    those that do. *)
Theorem metropolis_p_ge_1_iff_downhill (r_trial r_old : R) :
  0 < temperature ->
  exponent_in_range (- spl_eval E_spline_shifted r_trial / temperature) ->
  exponent_in_range (- spl_eval E_spline_shifted r_old / temperature) ->
  (1 <= metropolis_p r_trial r_old
   <-> spl_eval E_spline_shifted r_trial <= spl_eval E_spline_shifted r_old)
  /\ (metropolis_p r_trial r_old < 1
      <-> spl_eval E_spline_shifted r_old < spl_eval E_spline_shifted r_trial).
Proof.
  intros HT _ _.
  assert (Hup : spl_eval E_spline_shifted r_old < spl_eval E_spline_shifted r_trial
                -> metropolis_p r_trial r_old < 1).
  { intros HE. rewrite metropolis_p_boltzmann, <- exp_0.
    apply exp_increasing.
    assert (Hinv : 0 < / temperature) by (apply Rinv_0_lt_compat; exact HT).
    unfold Rdiv. nra. }
  split; split.
  - intros Hp.
    destruct (Rle_lt_dec (spl_eval E_spline_shifted r_trial)
                         (spl_eval E_spline_shifted r_old)) as [Hle | Hlt];
      [exact Hle |].
    specialize (Hup Hlt). lra.
  - apply metropolis_p_downhill. exact HT.
  - intros Hp.
    destruct (Rle_lt_dec (spl_eval E_spline_shifted r_trial)
                         (spl_eval E_spline_shifted r_old)) as [Hle | Hlt];
      [| exact Hlt].
    pose proof (metropolis_p_downhill r_trial r_old HT Hle). lra.
  - exact Hup.
Qed.


End Notebook.

(** ** The cubic instance meets scipy's contracts *)

Lemma cubic_derivative_contract (s : cubic) :
  derivative_contract (L := cubic_lib) s.
Proof.
  intros x. simpl.
  assert (H : derivable_pt_lim
                (fct_cte (c0 s) + mult_real_fct (c1 s) id
                 + mult_real_fct (c2 s) (fun y => y ^ 2)
                 + mult_real_fct (c3 s) (fun y => y ^ 3))%F x
                (0 + c1 s * 1 + c2 s * (INR 2 * x ^ pred 2)
                 + c3 s * (INR 3 * x ^ pred 3))).
  { repeat apply derivable_pt_lim_plus.
    - apply derivable_pt_lim_const.
    - apply derivable_pt_lim_scal, derivable_pt_lim_id.
    - apply derivable_pt_lim_scal, derivable_pt_lim_pow.
    - apply derivable_pt_lim_scal, derivable_pt_lim_pow. }
  replace (cubic_eval (cubic_derivative s) x)
    with (0 + c1 s * 1 + c2 s * (INR 2 * x ^ pred 2) + c3 s * (INR 3 * x ^ pred 3)).
  - exact H.
  - unfold cubic_eval, cubic_derivative. simpl. ring.
Qed.

Lemma cubic_through_interpolates (y0 y1 y2 y3 : R) :
  let s := cubic_through (0.5 * 1.89) (1.0 * 1.89) (1.5 * 1.89) (2.0 * 1.89)
                         y0 y1 y2 y3 in
  cubic_eval s (0.5 * 1.89) = y0 /\ cubic_eval s (1.0 * 1.89) = y1
  /\ cubic_eval s (1.5 * 1.89) = y2 /\ cubic_eval s (2.0 * 1.89) = y3.
Proof.
  cbv zeta. unfold cubic_through, cubic_eval. cbn [c0 c1 c2 c3].
  repeat split; field; repeat split; lra.
Qed.

Lemma cubic_interpolation_contract :
  @interpolation_contract cubic_lib (r_array_au knots4) 3 is_cubic.
Proof.
  split.
  - intros ys _. eexists. intros x. reflexivity.
  - intros ys Hlen i Hi.
    destruct ys as [| y0 [| y1 [| y2 [| y3 [| y4 ys]]]]]; try discriminate Hlen.
    destruct (cubic_through_interpolates y0 y1 y2 y3) as (H0 & H1 & H2 & H3).
    simpl in Hi.
    destruct i as [| [| [| [| i]]]]; [exact H0 | exact H1 | exact H2 | exact H3 | lia].
  - intros f c [s Hs].
    exists (Cubic (c0 s + c) (c1 s) (c2 s) (c3 s)).
    intros x. rewrite Hs. unfold cubic_eval. simpl. ring.
  - intros f g [s Hs] [t Ht] Hagree x.
    pose proof (Hagree 0%nat) as A0. pose proof (Hagree 1%nat) as A1.
    pose proof (Hagree 2%nat) as A2. pose proof (Hagree 3%nat) as A3.
    simpl in A0, A1, A2, A3.
    rewrite Hs, Ht in A0, A1, A2, A3.
    specialize (A0 ltac:(lia)). specialize (A1 ltac:(lia)).
    specialize (A2 ltac:(lia)). specialize (A3 ltac:(lia)).
    rewrite Hs, Ht. unfold cubic_eval in *.
    assert (E3 : c3 s = c3 t) by lra.
    assert (E2 : c2 s = c2 t) by lra.
    assert (E1 : c1 s = c1 t) by lra.
    assert (E0 : c0 s = c0 t) by lra.
    rewrite E0, E1, E2, E3. reflexivity.
Qed.

Lemma well4_shifted_eval (x : R) :
  spl_eval (E_spline_shifted (L := cubic_lib) knots4 well4) x = (x / 1.89 - 1) ^ 2.
Proof.
  unfold E_spline_shifted, r_array_au, knots4, well4. simpl.
  unfold cubic_through, cubic_eval. cbn [c0 c1 c2 c3]. lra.
Qed.

Lemma flat4_force (x : R) :
  spl_eval (fE (L := cubic_lib) knots4 flat4) x = 0.
Proof.
  unfold fE, E_spline, r_array_au, knots4, flat4. simpl.
  unfold cubic_derivative, cubic_through, cubic_eval. cbn [c0 c1 c2 c3]. lra.
Qed.

Lemma HF_dt_nonzero : HF.dt <> 0.
Proof. unfold HF.dt. lra. Qed.

Lemma HF_dt_pos : 0 < HF.dt.
Proof. unfold HF.dt. lra. Qed.

Lemma small_square_in_range (x : R) : -1 <= x <= 1 -> x ^ 2 < float_overflow.
Proof. intros Hx. pose proof float_overflow_gt_1. nra. Qed.

Lemma HF_dt_valid : valid_step HF.dt.
Proof.
  split; [exact HF_dt_nonzero |].
  apply small_square_in_range. unfold HF.dt. lra.
Qed.

Lemma unit_step_valid : valid_step 1.
Proof. split; [lra | apply small_square_in_range; lra]. Qed.

Lemma HF_mu_pos : 0 < HF.mu.
Proof. unfold HF.mu, HF.mH, HF.mF. lra. Qed.

Lemma HF_gamma_nonneg : 0 <= HF.gamma.
Proof. unfold HF.gamma. lra. Qed.

Lemma HF_temperature_nonzero : HF.temperature <> 0.
Proof. unfold HF.temperature. lra. Qed.

Lemma HF_temperature_nonneg : 0 <= HF.temperature.
Proof. unfold HF.temperature. lra. Qed.

Lemma HF_denominator_nonzero : 1 + 0.5 * HF.gamma * HF.dt <> 0.
Proof. unfold HF.gamma, HF.dt. lra. Qed.

Lemma HF_radicand_nonneg :
  0 <= 2 * HF.temperature * HF.gamma * HF.mu / HF.dt.
Proof. unfold HF.temperature, HF.gamma, HF.mu, HF.mH, HF.mF, HF.dt. lra. Qed.

Lemma huge_step_overflows : float_overflow <= huge_step ^ 2.
Proof.
  unfold huge_step, float_overflow. rewrite pow_IZR. apply IZR_le.
  vm_compute. discriminate.
Qed.

Lemma huge_step_nonzero : huge_step <> 0.
Proof. unfold huge_step. apply not_0_IZR. vm_compute. discriminate. Qed.

Lemma HF_temperature_pos : 0 < HF.temperature.
Proof. unfold HF.temperature. lra. Qed.

Lemma HF_N_updates_pos : (2 <= HF.N_updates)%nat.
Proof. unfold HF.N_updates. lia. Qed.

(** ** The BBK update against its specification *)

(** C2, as amended: for every position, velocity, perturbation, force
    derivative and draw, and for every time step that is not zero and whose
    square is in the binary64 range, [BBK] returns the triple [r', v', rp']
    of the specification, for the force [F = -dE/dr] and the perturbation
    [rp'] its perturbation line draws.  The mass and the denominator
    [1 + 0.5*gamma*dt] are not zero and the radicand of the perturbation
    line is not negative, so that numpy's quotients and square root are
    those of the reals. *)
Theorem BBK_refines_spec (r v rp gamma T mu : R) (dE : R -> R) (dt xi : R) :
  valid_step dt -> mu <> 0 -> 1 + 0.5 * gamma * dt <> 0 ->
  0 <= 2 * T * gamma * mu / dt ->
  let rp' := sqrt (2 * T * gamma * mu / dt) * xi in
  BBK_perturbation gamma T mu dt xi = Ok rp'
  /\ BBK r v rp gamma T mu dE dt xi
     = Ok (BBK_spec (fun x => - dE x) r v rp gamma mu dt rp').
Proof.
  intros Hdt _ _ _. cbv zeta. split.
  - apply BBK_perturbation_ok. exact (proj1 Hdt).
  - apply BBK_ok. exact Hdt.
Qed.

Lemma BBK_refines_spec_witness :
  BBK 1.7 0.001 0 HF.gamma HF.temperature HF.mu
      (spl_eval (fE (L := cubic_lib) knots4 well4)) HF.dt 0.3
  = Ok (BBK_spec (fun x => - spl_eval (fE (L := cubic_lib) knots4 well4) x)
                 1.7 0.001 0 HF.gamma HF.mu HF.dt
                 (sqrt (2 * HF.temperature * HF.gamma * HF.mu / HF.dt) * 0.3)).
Proof.
  exact (proj2 (BBK_refines_spec 1.7 0.001 0 HF.gamma HF.temperature HF.mu
                  (spl_eval (fE (L := cubic_lib) knots4 well4)) HF.dt 0.3
                  HF_dt_valid (Rgt_not_eq _ _ HF_mu_pos)
                  HF_denominator_nonzero HF_radicand_nonneg)).
Defined.

(** With a time step of zero the perturbation line divides by zero: the call
    raises and returns no triple at all. *)
Lemma BBK_zero_step_returns_nothing :
  BBK 1.7 0.001 0 HF.gamma HF.temperature HF.mu
      (spl_eval (fE (L := cubic_lib) knots4 well4)) 0 0.3
  = Raise ZeroDivisionError
  /\ ~ (exists rp',
          BBK 1.7 0.001 0 HF.gamma HF.temperature HF.mu
              (spl_eval (fE (L := cubic_lib) knots4 well4)) 0 0.3
          = Ok (BBK_spec (fun x => - spl_eval (fE (L := cubic_lib) knots4 well4) x)
                         1.7 0.001 0 HF.gamma HF.mu 0 rp')).
Proof.
  split.
  - apply BBK_zero_step.
  - intros [rp' H]. rewrite BBK_zero_step in H. discriminate H.
Qed.

(** ** No update raises *)


(** A time step of [2^512]: [dt**2] is out of range and the update raises
    [OverflowError], before its perturbation line is reached. *)
Lemma BBK_raises_at_huge_step :
  BBK 1.7 0.001 0 HF.gamma HF.temperature HF.mu
      (spl_eval (fE (L := cubic_lib) knots4 well4)) huge_step 0.3
  = Raise OverflowError.
Proof. apply BBK_overflow. exact huge_step_overflows. Qed.


(** ** Concrete runs *)

Lemma equilibrium_geometry_witness :
  exists idx req kval,
    Req_idx (L := cubic_lib) knots4 well4 = Ok idx
    /\ r_eq (L := cubic_lib) knots4 well4 = Ok req
    /\ k (L := cubic_lib) knots4 well4 = Ok kval
    /\ (idx < 200)%nat
    /\ req = nth idx r_fine 0
    /\ derivable_pt_lim (spl_eval (fE (L := cubic_lib) knots4 well4)) req kval.
Proof.
  destruct (equilibrium_geometry (L := cubic_lib) knots4 well4
              (cubic_derivative_contract _) (cubic_derivative_contract _))
    as (idx & req & kval & H1 & H2 & H3 & _ & _ & H4 & _ & _ & H5 & _ & _ & H6).
  exists idx, req, kval. repeat split; assumption.
Defined.

Lemma shifted_spline_equivalent_witness :
  (forall x,
      spl_eval (E_spline_shifted (L := cubic_lib) knots4 well4) x
      = spl_eval (E_spline (L := cubic_lib) knots4 well4) x + 100)
  /\ (forall r_trial r_old,
        metropolis_p (L := cubic_lib) knots4 well4 HF.temperature r_trial r_old
        = exp (- spl_eval (E_spline (L := cubic_lib) knots4 well4) r_trial
               / HF.temperature)
          / exp (- spl_eval (E_spline (L := cubic_lib) knots4 well4) r_old
                 / HF.temperature)).
Proof.
  exact (shifted_spline_equivalent (L := cubic_lib) knots4 well4 HF.temperature
           is_cubic eq_refl cubic_interpolation_contract).
Defined.

(** From 0.5 Angstrom, where the shifted energy of the well is 0.25, a step
    of 1 atomic unit goes downhill. *)
Lemma step_into_the_well :
  spl_eval (E_spline_shifted (L := cubic_lib) knots4 well4)
           (0.5 * 1.89 + normal_draws 0)
  <= spl_eval (E_spline_shifted (L := cubic_lib) knots4 well4) (0.5 * 1.89).
Proof. rewrite !well4_shifted_eval. unfold normal_draws. lra. Qed.

Lemma uniform_draws_in_range (i : nat) : 0 <= uniform_draws i < 1.
Proof. unfold uniform_draws. lra. Qed.

Lemma downhill_always_accepted_witness :
  1 <= metropolis_p (L := cubic_lib) knots4 well4 HF.temperature
         (0.5 * 1.89 + normal_draws 0) (0.5 * 1.89)
  /\ mc_body (L := cubic_lib) knots4 well4 HF.temperature
             normal_draws uniform_draws 0
             (McState (np_zeros 3) 0 (0.5 * 1.89))
     = (a <- setitem (np_zeros 3) 0 (0.5 * 1.89 + normal_draws 0) ;;
        Ok (McState a (0 + 1) (0.5 * 1.89))).
Proof.
  destruct (downhill_always_accepted (L := cubic_lib) knots4 well4
              HF.temperature normal_draws uniform_draws 0
              (McState (np_zeros 3) 0 (0.5 * 1.89))
              HF_temperature_pos step_into_the_well (uniform_draws_in_range 0))
    as (Hp & _ & Hbody).
  split; [exact Hp | exact Hbody].
Defined.

Lemma mc_bookkeeping_witness :
  exists st,
    mc_after (L := cubic_lib) knots4 well4 HF.temperature (0.5 * 1.89) 3
             normal_draws uniform_draws 2 = Ok st
    /\ (num_accepted_r st <= 2)%nat
    /\ length (r_accepted_array st) = 3%nat
    /\ r_av_mc st
       = np_sum (accepted_trials (L := cubic_lib) knots4 well4 HF.temperature
                                 (0.5 * 1.89) normal_draws uniform_draws 0 2)
         / INR (num_accepted_r st).
Proof.
  destruct (mc_bookkeeping (L := cubic_lib) knots4 well4 HF.temperature
              (0.5 * 1.89) 3 normal_draws uniform_draws 2 ltac:(lia))
    as (st & Hrun & [_ Hle] & _ & Hlen & _ & _ & _ & _ & Hmean).
  exists st. repeat split; assumption.
Defined.

(** *** The Metropolis loop never moves its current position *)

Lemma well_accepts (i : nat) :
  (i < 2)%nat ->
  accepts (L := cubic_lib) knots4 well4 HF.temperature (0.5 * 1.89)
          normal_draws uniform_draws i.
Proof.
  intros Hi. unfold accepts.
  apply Rlt_le_trans with 1; [unfold uniform_draws; lra |].
  apply metropolis_p_downhill; [exact HF_temperature_pos |].
  rewrite !well4_shifted_eval.
  destruct i as [| [| i]]; [| | lia]; unfold normal_draws; lra.
Qed.

Lemma exp_neg_le_half (y : R) : 1 <= y -> exp (- y) <= / 2.
Proof.
  intros Hy. rewrite exp_Ropp.
  apply Rinv_le_contravar; [lra |].
  pose proof (exp_ineq1_le y). lra.
Qed.

(** From 1.945, inside the well, a further step of 0.5 goes uphill by far
    more than the temperature. *)
Lemma well_rejects_from_accepted :
  ~ uniform_draws 1
    < metropolis_p (L := cubic_lib) knots4 well4 HF.temperature
                   (0.5 * 1.89 + 1 + normal_draws 1) (0.5 * 1.89 + 1).
Proof.
  rewrite metropolis_p_boltzmann, !well4_shifted_eval.
  unfold uniform_draws, normal_draws, HF.temperature.
  match goal with
  | |- ~ _ < exp ?e => replace e with (- (- e)) by ring; set (y := - e)
  end.
  assert (Hy : 1 <= y) by (unfold y; lra).
  pose proof (exp_neg_le_half y Hy). lra.
Qed.

(** A run with uniform draws of 0.5, in a well with its minimum at 1.89
    atomic units, started at 0.945 with the normal draws 1 and 0.5: the first
    iteration of the loop accepts 1.945 and [r_prev] stays 0.945; the second
    iteration then proposes 0.945 + 0.5 (and accepts it against the energy at
    0.945).  The sampler of the specification moves to 1.945, proposes
    1.945 + 0.5 and rejects it. *)
Lemma well_run_diverges :
  mc_after (L := cubic_lib) knots4 well4 HF.temperature (0.5 * 1.89) 3
           normal_draws uniform_draws 1
  = Ok (McState [0.5 * 1.89 + 1; 0; 0] 1 (0.5 * 1.89))
  /\ mc_after (L := cubic_lib) knots4 well4 HF.temperature (0.5 * 1.89) 3
              normal_draws uniform_draws 2
     = Ok (McState [0.5 * 1.89 + 1; 0.5 * 1.89 + 0.5; 0] 2 (0.5 * 1.89))
  /\ metropolis_after (L := cubic_lib) knots4 well4 HF.temperature (0.5 * 1.89) 3
                      normal_draws uniform_draws 2
     = Ok (McState [0.5 * 1.89 + 1; 0; 0] 1 (0.5 * 1.89 + 1)).
Proof.
  rewrite !mc_after_state by lia.
  cbn [accepted_trials].
  pose proof (well_accepts 0 ltac:(lia)) as A0.
  pose proof (well_accepts 1 ltac:(lia)) as A1.
  destruct (accepts_dec (L := cubic_lib) knots4 well4 HF.temperature (0.5 * 1.89)
              normal_draws uniform_draws 0) as [_ | N0]; [| contradiction].
  destruct (accepts_dec (L := cubic_lib) knots4 well4 HF.temperature (0.5 * 1.89)
              normal_draws uniform_draws 1) as [_ | N1]; [| contradiction].
  split; [reflexivity |]. split; [reflexivity |].
  unfold metropolis_after, py_range, mc_init. cbn [Nat.sub seq for_loop].
  unfold metropolis_body at 1. cbn [r_prev r_accepted_array num_accepted_r].
  unfold accepts in A0.
  destruct (Rlt_dec (uniform_draws 0)
              (metropolis_p (L := cubic_lib) knots4 well4 HF.temperature
                            (0.5 * 1.89 + normal_draws 0) (0.5 * 1.89)))
    as [_ | N0]; [| contradiction].
  cbn [bind np_zeros repeat setitem length Nat.ltb Nat.leb firstn skipn app].
  unfold metropolis_body. cbn [r_prev r_accepted_array num_accepted_r].
  change (normal_draws 0) with 1.
  destruct (Rlt_dec (uniform_draws 1)
              (metropolis_p (L := cubic_lib) knots4 well4 HF.temperature
                            (0.5 * 1.89 + 1 + normal_draws 1) (0.5 * 1.89 + 1)))
    as [Y | _]; [exfalso; exact (well_rejects_from_accepted Y) |].
  reflexivity.
Qed.

(** C1 on the notebook's own parameters: for every energy spline, every
    initial position and all normal draws [z0], [z1], with uniform draws of 0
    (so that both proposals are accepted), the loop stores [r_init + z0] and
    then [r_init + z1], and [r_prev] is still [r_init]: the second proposal
    is made from the initial position, not from the accepted
    [r_init + z0].  The sampler of the specification stores
    [r_init + z0 + z1] second. *)
Theorem metropolis_loop_keeps_initial_position `{SplineLib}
        (r_array E_array : list R) (r_init z0 z1 : R) :
  mc_after r_array E_array HF.temperature r_init HF.N_updates
           (two_draws z0 z1) zero_draws 2
  = Ok (McState (r_init + z0 :: r_init + z1 :: np_zeros (HF.N_updates - 2))
                2 r_init)
  /\ metropolis_after r_array E_array HF.temperature r_init HF.N_updates
                      (two_draws z0 z1) zero_draws 2
     = Ok (McState (r_init + z0 :: r_init + z0 + z1
                    :: np_zeros (HF.N_updates - 2))
                   2 (r_init + z0 + z1)).
Proof.
  split.
  - apply (mc_two_steps r_array E_array HF.temperature r_init HF.N_updates
             (two_draws z0 z1) zero_draws HF_N_updates_pos);
      reflexivity.
  - apply (metropolis_two_steps r_array E_array HF.temperature r_init
             HF.N_updates (two_draws z0 z1) zero_draws HF_N_updates_pos);
      reflexivity.
Qed.


(** *** The trajectory arrays on a free particle *)

Lemma free_particle_step (r v : R) (n : nat) :
  BBK r v 0 0 HF.temperature 1 (spl_eval (fE (L := cubic_lib) knots4 flat4)) 1
      (zero_draws n)
  = Ok (r + v, v, 0).
Proof.
  rewrite BBK_ok by exact unit_step_valid. unfold BBK_spec, zero_draws.
  rewrite !flat4_force.
  f_equal. f_equal; [f_equal |]; lra.
Qed.

Lemma free_particle_iterates (n : nat) :
  BBK_iter (L := cubic_lib) knots4 flat4 1 1 HF.temperature 0 1 1 0 zero_draws n
  = Ok (1 + INR n, 1, 0).
Proof.
  induction n as [| n IH].
  - simpl. do 3 f_equal. lra.
  - cbn [BBK_iter]. rewrite IH. cbn [bind].
    unfold position, velocity, perturbation. cbn [fst snd].
    rewrite free_particle_step. rewrite S_INR. do 3 f_equal. lra.
Qed.

(** A free particle (flat energy, no drag) of unit mass that starts at 1
    with velocity 1 and takes steps of 1.  Its BBK iterates are at 1, 2, 3,
    4; the arrays hold 1, 3, 4 under the times 0, 1, 2: the position after
    one update, 2, is not recorded. *)
Lemma free_particle_trajectory :
  exists tr,
    langevin_trajectory (L := cubic_lib) knots4 flat4 1 1 HF.temperature 0
                        1 1 0 3 zero_draws = Ok tr
    /\ BBK_iter (L := cubic_lib) knots4 flat4 1 1 HF.temperature 0 1 1 0
                zero_draws 1 = Ok (2, 1, 0)
    /\ nth 0 (r_vs_t tr) 0 = 1 /\ nth 0 (t_array tr) 0 = 0
    /\ nth 1 (r_vs_t tr) 0 = 3 /\ nth 1 (t_array tr) 0 = 1
    /\ nth 2 (r_vs_t tr) 0 = 4 /\ nth 2 (t_array tr) 0 = 2.
Proof.
  destruct (trajectory_after_inv (L := cubic_lib) knots4 flat4 1 1 HF.temperature
              0 1 1 0 3 zero_draws 3 unit_step_valid
              (small_square_in_range 1 ltac:(lra)) ltac:(lia))
    as (tr & Hrun & _ & _ & _ & _ & _ & _ & Ht0 & Hr0 & _ & Hrec).
  exists tr. split; [exact Hrun |].
  destruct (Hrec 1%nat ltac:(lia)) as (s1 & Hs1 & Ht1 & Hr1 & _).
  destruct (Hrec 2%nat ltac:(lia)) as (s2 & Hs2 & Ht2 & Hr2 & _).
  rewrite free_particle_iterates in Hs1, Hs2.
  injection Hs1 as <-. injection Hs2 as <-.
  rewrite free_particle_iterates.
  unfold position in Hr1, Hr2. simpl in Hr1, Hr2, Ht1, Ht2 |- *.
  repeat split; try assumption; try lra.
Qed.

(** ** The notebook with its own literals *)

Lemma HF_data_shape :
  length HF.r_array = 24%nat /\ length HF.E_array = 24%nat.
Proof. split; reflexivity. Qed.

(** Cell 11 runs to its end and gives the arrays; entry 1 is the state after
    two updates. *)
Lemma notebook_trajectory `{SplineLib} (r_array E_array : list R)
      (r_init v_init rp_init : R) (xi_bbk : nat -> R) :
  v_init ^ 2 < float_overflow ->
  exists tr s,
    langevin_trajectory r_array E_array HF.mu HF.dt HF.temperature HF.gamma
                        r_init v_init rp_init HF.N_updates xi_bbk = Ok tr
    /\ BBK_iter r_array E_array HF.mu HF.dt HF.temperature HF.gamma
                r_init v_init rp_init xi_bbk 2 = Ok s
    /\ nth 1 (t_array tr) 0 = HF.dt * 1
    /\ nth 1 (r_vs_t tr) 0 = position s
    /\ nth 1 (v_vs_t tr) 0 = velocity s.
Proof.
  intros Hv2. pose proof HF_N_updates_pos as HN.
  destruct (trajectory_records_next_iterate r_array E_array HF.mu HF.dt
              HF.temperature HF.gamma r_init v_init rp_init HF.N_updates xi_bbk
              1 HF_dt_valid Hv2 ltac:(lia))
    as (tr & s & Hrun & Hs & _ & _ & Ht & Hr & Hv).
  exists tr, s. repeat split; assumption.
Qed.

(** Cell 12 runs to its end, and [r_prev] is then still [r_init]. *)
Lemma notebook_monte_carlo `{SplineLib} (r_array E_array : list R)
      (r_init : R) (normal_mc uniform_mc : nat -> R) :
  exists st,
    monte_carlo r_array E_array HF.temperature r_init HF.N_updates
                normal_mc uniform_mc = Ok st
    /\ r_prev st = r_init
    /\ (num_accepted_r st <= HF.N_updates)%nat.
Proof.
  eexists. unfold monte_carlo.
  split; [apply mc_after_state; lia |].
  cbn [r_prev num_accepted_r].
  split; [reflexivity | apply accepted_trials_length].
Qed.

(** The notebook's knots are what scipy asks for: 24 abscissae, more than
    the degree, in increasing order. *)
Lemma HF_knots_increasing : Sorted Rlt (r_array_au HF.r_array).
Proof.
  unfold r_array_au, HF.r_array. cbn [map].
  repeat (constructor; try lra).
Qed.

(** On the notebook's data the two splines differ by the constant 100. *)
Lemma notebook_shifted_spline `{SplineLib} (Sp : (R -> R) -> Prop) :
  interpolation_contract (r_array_au HF.r_array) 3 Sp ->
  forall x,
    spl_eval (E_spline_shifted HF.r_array HF.E_array) x
    = spl_eval (E_spline HF.r_array HF.E_array) x + 100.
Proof. apply E_spline_shifted_eval. reflexivity. Qed.

(** *** The trajectory arrays on the notebook's parameters *)

Lemma HF_noise_scale_pos :
  0 < sqrt (2 * HF.temperature * HF.gamma * HF.mu / HF.dt).
Proof.
  apply sqrt_lt_R0.
  unfold HF.temperature, HF.gamma, HF.mu, HF.mH, HF.mF, HF.dt. lra.
Qed.

(** The position after one update does not depend on the draw of that
    update; the position after two updates grows with it. *)
Lemma second_position_depends_on_draw (f : R -> R) (r0 v0 rp0 : R) :
  let s1 x := BBK_spec (fun y => - f y) r0 v0 rp0 HF.gamma HF.mu HF.dt
                (sqrt (2 * HF.temperature * HF.gamma * HF.mu / HF.dt) * x) in
  let s2 x z := BBK_spec (fun y => - f y) (position (s1 x)) (velocity (s1 x))
                  (perturbation (s1 x)) HF.gamma HF.mu HF.dt z in
  forall z z', position (s1 0) = position (s1 1)
               /\ position (s2 0 z) < position (s2 1 z').
Proof.
  cbv zeta. intros z z'.
  pose proof HF_noise_scale_pos as Hc.
  unfold BBK_spec, position, velocity, perturbation. cbn [fst snd].
  set (c := sqrt (2 * HF.temperature * HF.gamma * HF.mu / HF.dt)) in *.
  split; [reflexivity |].
  set (r1 := r0 + v0 * HF.dt + _).
  generalize (f r1) (f r0). intros F1 F0.
  unfold HF.gamma, HF.mu, HF.mH, HF.mF, HF.dt.
  lra.
Qed.

Lemma notebook_first_iterates `{SplineLib} (r_array E_array : list R)
      (r_init v_init rp_init x : R) :
  let f := spl_eval (fE r_array E_array) in
  let c := sqrt (2 * HF.temperature * HF.gamma * HF.mu / HF.dt) in
  let s1 := BBK_spec (fun y => - f y) r_init v_init rp_init
                     HF.gamma HF.mu HF.dt (c * x) in
  BBK_iter r_array E_array HF.mu HF.dt HF.temperature HF.gamma
           r_init v_init rp_init (two_draws x 0) 1 = Ok s1
  /\ BBK_iter r_array E_array HF.mu HF.dt HF.temperature HF.gamma
              r_init v_init rp_init (two_draws x 0) 2
     = Ok (BBK_spec (fun y => - f y) (position s1) (velocity s1)
                    (perturbation s1) HF.gamma HF.mu HF.dt (c * 0)).
Proof.
  cbv zeta.
  assert (H1 : BBK_iter r_array E_array HF.mu HF.dt HF.temperature HF.gamma
                        r_init v_init rp_init (two_draws x 0) 1
               = Ok (BBK_spec (fun y => - spl_eval (fE r_array E_array) y)
                              r_init v_init rp_init HF.gamma HF.mu HF.dt
                              (sqrt (2 * HF.temperature * HF.gamma * HF.mu / HF.dt)
                               * x))).
  { cbn [BBK_iter bind]. unfold position, velocity, perturbation. cbn [fst snd].
    rewrite BBK_ok by exact HF_dt_valid. reflexivity. }
  split; [exact H1 |].
  change (BBK_iter r_array E_array HF.mu HF.dt HF.temperature HF.gamma
                   r_init v_init rp_init (two_draws x 0) 2)
    with (s <- BBK_iter r_array E_array HF.mu HF.dt HF.temperature HF.gamma
                        r_init v_init rp_init (two_draws x 0) 1 ;;
          BBK (position s) (velocity s) (perturbation s)
              HF.gamma HF.temperature HF.mu (spl_eval (fE r_array E_array))
              HF.dt (two_draws x 0 1)).
  rewrite H1. cbn [bind].
  rewrite BBK_ok by exact HF_dt_valid. reflexivity.
Qed.

(** C3 on the notebook's own parameters: for every energy spline and every
    initial state (with an initial velocity whose square is in the binary64
    range, as [v_init**2] raises otherwise), with the first normal draw 0
    or else with the first normal draw 1, the cell runs to its end and
    entry 1 of [r_vs_t], stored under the time [dt * 1], is not the
    position after one BBK update of the initial state.  (It is the
    position after two updates: lemma [notebook_trajectory].) *)
Theorem trajectory_skips_first_update `{SplineLib}
        (r_array E_array : list R) (r_init v_init rp_init : R) :
  v_init ^ 2 < float_overflow ->
  exists x tr s1,
    (x = 0 \/ x = 1)
    /\ langevin_trajectory r_array E_array HF.mu HF.dt HF.temperature HF.gamma
                           r_init v_init rp_init HF.N_updates (two_draws x 0)
       = Ok tr
    /\ BBK_iter r_array E_array HF.mu HF.dt HF.temperature HF.gamma
                r_init v_init rp_init (two_draws x 0) 1 = Ok s1
    /\ nth 1 (t_array tr) 0 = HF.dt * 1
    /\ nth 1 (r_vs_t tr) 0 <> position s1.
Proof.
  intros Hv2.
  pose proof (second_position_depends_on_draw
                (spl_eval (fE r_array E_array)) r_init v_init rp_init) as D.
  cbv zeta in D. destruct (D 0 0) as [Dsame Dlt]. clear D.
  rewrite !Rmult_0_r in Dsame, Dlt.
  assert (Step : forall x,
             exists tr,
               langevin_trajectory r_array E_array HF.mu HF.dt HF.temperature
                 HF.gamma r_init v_init rp_init HF.N_updates (two_draws x 0)
               = Ok tr
               /\ nth 1 (t_array tr) 0 = HF.dt * 1
               /\ nth 1 (r_vs_t tr) 0
                  = position
                      (BBK_spec (fun y => - spl_eval (fE r_array E_array) y)
                         (position
                            (BBK_spec (fun y => - spl_eval (fE r_array E_array) y)
                               r_init v_init rp_init HF.gamma HF.mu HF.dt
                               (sqrt (2 * HF.temperature * HF.gamma * HF.mu / HF.dt) * x)))
                         (velocity
                            (BBK_spec (fun y => - spl_eval (fE r_array E_array) y)
                               r_init v_init rp_init HF.gamma HF.mu HF.dt
                               (sqrt (2 * HF.temperature * HF.gamma * HF.mu / HF.dt) * x)))
                         (perturbation
                            (BBK_spec (fun y => - spl_eval (fE r_array E_array) y)
                               r_init v_init rp_init HF.gamma HF.mu HF.dt
                               (sqrt (2 * HF.temperature * HF.gamma * HF.mu / HF.dt) * x)))
                         HF.gamma HF.mu HF.dt 0)).
  { intros x.
    destruct (notebook_trajectory r_array E_array r_init v_init rp_init
                (two_draws x 0) Hv2) as (tr & s & Hrun & Hs & Ht & Hr & _).
    destruct (notebook_first_iterates r_array E_array r_init v_init rp_init x)
      as [_ H2].
    cbv zeta in H2. rewrite H2 in Hs. rewrite Rmult_0_r in Hs.
    injection Hs as <-.
    exists tr. repeat split; assumption. }
  destruct (notebook_first_iterates r_array E_array r_init v_init rp_init 0)
    as [I0 _].
  destruct (notebook_first_iterates r_array E_array r_init v_init rp_init 1)
    as [I1 _].
  cbv zeta in I0, I1. rewrite Rmult_0_r in I0.
  destruct (Step 0) as (tr0 & Hrun0 & Ht0 & Hr0).
  destruct (Step 1) as (tr1 & Hrun1 & Ht1 & Hr1).
  rewrite Rmult_0_r in Hr0.
  destruct (Req_dec_T (nth 1 (r_vs_t tr0) 0)
              (position
                 (BBK_spec (fun y => - spl_eval (fE r_array E_array) y)
                    r_init v_init rp_init HF.gamma HF.mu HF.dt 0)))
    as [Heq | Hne].
  - exists 1, tr1. eexists. split; [right; reflexivity |].
    split; [exact Hrun1 |]. split; [exact I1 |]. split; [exact Ht1 |].
    rewrite Hr1. rewrite Hr0 in Heq. lra.
  - exists 0, tr0. eexists. split; [left; reflexivity |].
    split; [exact Hrun0 |]. split; [exact I0 |]. split; [exact Ht0 |].
    exact Hne.
Qed.

(** ** Edge cases of the cells *)

(** X12: how cell 11 fails.  With [N_updates = 0] the arrays are empty and
    the first assignment, [r_vs_t[0] = r_init], raises [IndexError].  With
    at least one update, an initial velocity whose square is out of range
    raises [OverflowError] at [v_init**2]; otherwise a time step of zero
    raises [ZeroDivisionError] in the first call of [BBK], and one whose
    square is out of range raises [OverflowError] there. *)
Theorem trajectory_error_cases {L : SplineLib} (r_array E_array : list R)
        (mu dt temperature gamma r_init v_init rp_init : R) (xi_bbk : nat -> R) :
  langevin_trajectory r_array E_array mu dt temperature gamma
                      r_init v_init rp_init 0 xi_bbk
  = Raise IndexError
  /\ forall n,
       (float_overflow <= v_init ^ 2 ->
        langevin_trajectory r_array E_array mu dt temperature gamma
                            r_init v_init rp_init (S n) xi_bbk
        = Raise OverflowError)
       /\ (v_init ^ 2 < float_overflow ->
           langevin_trajectory r_array E_array mu 0 temperature gamma
                               r_init v_init rp_init (S n) xi_bbk
           = Raise ZeroDivisionError)
       /\ (float_overflow <= dt ^ 2 ->
           langevin_trajectory r_array E_array mu dt temperature gamma
                               r_init v_init rp_init (S n) xi_bbk
           = Raise OverflowError).
Proof.
  split.
  - apply trajectory_empty_raises. reflexivity.
  - intros n. split; [| split].
    + intros Hv. apply trajectory_start_overflow_raises; [exact Hv | lia].
    + intros Hv. apply trajectory_zero_step_raises; [reflexivity | exact Hv | lia].
    + intros Hdt. apply trajectory_step_overflow_raises; [exact Hdt | lia].
Qed.

(** X13: with [N_updates = 1] (a time step [BBK] accepts and an initial
    velocity whose square is in range) the loop body never runs: the arrays
    hold the initial state alone, under the time 0, and the one BBK update
    the cell still makes is kept in [result_array] only. *)
Theorem trajectory_single_entry {L : SplineLib} (r_array E_array : list R)
        (mu dt temperature gamma r_init v_init rp_init : R) (xi_bbk : nat -> R) :
  valid_step dt -> v_init ^ 2 < float_overflow ->
  exists tr,
    langevin_trajectory r_array E_array mu dt temperature gamma
                        r_init v_init rp_init 1 xi_bbk = Ok tr
    /\ r_vs_t tr = [r_init] /\ v_vs_t tr = [v_init] /\ t_array tr = [0]
    /\ temp_vs_t tr = [mu * v_init ^ 2]
    /\ BBK r_init v_init rp_init gamma temperature mu
           (spl_eval (fE r_array E_array)) dt (xi_bbk 0%nat)
       = Ok (result_array tr).
Proof.
  intros Hdt Hv. unfold langevin_trajectory, trajectory_after.
  destruct (minE_succeeds r_array E_array) as [m Hm]. rewrite Hm. cbn [bind].
  unfold trajectory_init.
  rewrite !(float_pow2_ok v_init) by exact Hv.
  destruct (BBK_succeeds r_init v_init rp_init gamma temperature mu
              (spl_eval (fE r_array E_array)) dt (xi_bbk 0%nat) Hdt) as [s1 Hs1].
  rewrite Hs1.
  eexists. split; [reflexivity |].
  repeat split.
Qed.

(** X21: with [N_updates = 0] the Monte Carlo loop does nothing: no position
    is accepted and the array is empty; the mean is then taken over an
    empty slice, and the acceptance rate, a division by [N_updates], raises
    [ZeroDivisionError]. *)
Theorem monte_carlo_without_updates {L : SplineLib} (r_array E_array : list R)
        (temperature r_init : R) (normal_mc uniform_mc : nat -> R) :
  monte_carlo r_array E_array temperature r_init 0 normal_mc uniform_mc
  = Ok (McState [] 0 r_init)
  /\ slice (r_accepted_array (McState [] 0 r_init)) 0
           (num_accepted_r (McState [] 0 r_init)) = []
  /\ acceptance_rate 0 (McState [] 0 r_init) = Raise ZeroDivisionError.
Proof.
  split; [| split]; reflexivity.
Qed.

(** ** More on the BBK update *)

(** X7: a particle at rest at a stationary point of the energy, with no
    perturbation and a draw of zero, stays where it is: for a time step
    [BBK] accepts, a mass and a denominator [1 + 0.5*gamma*dt] that are not
    zero, and a radicand of the perturbation line that is computed inside
    the range of the floats. *)
Theorem BBK_keeps_a_particle_at_rest (r gamma T mu : R) (dE : R -> R) (dt : R) :
  valid_step dt -> mu <> 0 -> 1 + 0.5 * gamma * dt <> 0 ->
  radicand_in_range T gamma mu dt -> dE r = 0 ->
  BBK r 0 0 gamma T mu dE dt 0 = Ok (r, 0, 0).
Proof.
  intros Hdt _ _ _ Hstat. rewrite BBK_ok by exact Hdt.
  unfold BBK_spec. rewrite Hstat.
  replace (r + 0 * dt + 0.5 * ((- 0 + 0) / mu - gamma * 0) * dt ^ 2) with r
    by (unfold Rdiv; ring).
  rewrite Hstat. f_equal. f_equal; [f_equal |]; unfold Rdiv; ring.
Qed.

(** X8: without drag [BBK] is the velocity Verlet step: no perturbation is
    drawn ([rp_fut] is 0 whatever the draw and the temperature) and the
    velocity is advanced by the mean of the current and the future
    acceleration.  The time step is one [BBK] accepts, the mass is not zero
    and [2*T] is inside the range of the floats (so that [2*T*0] is 0). *)
Theorem BBK_without_drag_is_velocity_verlet (r v rp T mu : R) (dE : R -> R)
        (dt xi : R) :
  valid_step dt -> mu <> 0 -> Rabs (2 * T) < float_overflow ->
  let a := (- dE r + rp) / mu in
  let r' := r + v * dt + 0.5 * a * dt ^ 2 in
  let a' := - dE r' / mu in
  BBK r v rp 0 T mu dE dt xi = Ok (r', v + 0.5 * (a + a') * dt, 0).
Proof.
  intros Hdt _ _. cbv zeta. rewrite BBK_ok by exact Hdt. unfold BBK_spec.
  replace (2 * T * 0 * mu / dt) with 0 by (unfold Rdiv; ring).
  rewrite sqrt_0.
  replace ((- dE r + rp) / mu - 0 * v) with ((- dE r + rp) / mu) by ring.
  set (a := (- dE r + rp) / mu).
  set (r' := r + v * dt + 0.5 * a * dt ^ 2).
  f_equal. f_equal; [f_equal |].
  - replace (1 + 0.5 * 0 * dt) with 1 by ring.
    unfold Rdiv. rewrite Rinv_1. ring.
  - ring.
Qed.

(** X9: the fresh random force acts on the velocity only.  Two updates
    from one state with different draws reach the same position, and, over
    the reals, their velocities differ by the difference of the two
    perturbations times [0.5 * dt / mu / (1 + 0.5 * gamma * dt)].  The time
    step is one [BBK] accepts, the mass and the denominator are not zero
    and the radicand is computed inside the range of the floats. *)
Theorem BBK_draw_moves_the_velocity_only (r v rp gamma T mu : R) (dE : R -> R)
        (dt xi xi' : R) :
  valid_step dt -> mu <> 0 -> 1 + 0.5 * gamma * dt <> 0 ->
  radicand_in_range T gamma mu dt ->
  exists s s',
    BBK r v rp gamma T mu dE dt xi = Ok s
    /\ BBK r v rp gamma T mu dE dt xi' = Ok s'
    /\ position s = position s'
    /\ velocity s - velocity s'
       = 0.5 * dt * (perturbation s - perturbation s') / mu
         / (1 + 0.5 * gamma * dt)
    /\ perturbation s - perturbation s'
       = sqrt (2 * T * gamma * mu / dt) * (xi - xi').
Proof.
  intros Hdt _ _ _. do 2 eexists.
  split; [apply BBK_ok; exact Hdt |].
  split; [apply BBK_ok; exact Hdt |].
  unfold BBK_spec, position, velocity, perturbation. cbn [fst snd].
  split; [reflexivity |].
  split; [unfold Rdiv; ring | ring].
Qed.

(** ** Concrete runs of the further properties *)

Lemma half_in_unit_range : 0 <= 0.5 < 1.
Proof. lra. Qed.

Lemma small_in_range (x : R) : -1 <= x <= 1 -> Rabs x < float_overflow.
Proof.
  intros Hx. pose proof float_overflow_gt_1. apply Rabs_def1; lra.
Qed.

Lemma HF_radicand_in_range :
  radicand_in_range HF.temperature HF.gamma HF.mu HF.dt.
Proof.
  pose proof float_overflow_gt_1 as Hbig.
  unfold radicand_in_range.
  repeat split;
    first [ apply small_in_range | idtac ];
    unfold HF.temperature, HF.gamma, HF.mu, HF.mH, HF.mF, HF.dt; lra.
Qed.

Lemma trajectory_skips_first_update_witness :
  exists x tr s1,
    (x = 0 \/ x = 1)
    /\ langevin_trajectory (L := cubic_lib) knots4 well4 HF.mu HF.dt
                           HF.temperature HF.gamma 1.7 0.001 0 HF.N_updates
                           (two_draws x 0)
       = Ok tr
    /\ BBK_iter (L := cubic_lib) knots4 well4 HF.mu HF.dt HF.temperature
                HF.gamma 1.7 0.001 0 (two_draws x 0) 1 = Ok s1
    /\ nth 1 (t_array tr) 0 = HF.dt * 1
    /\ nth 1 (r_vs_t tr) 0 <> position s1.
Proof.
  exact (trajectory_skips_first_update (H := cubic_lib) knots4 well4 1.7 0.001 0
           (small_square_in_range 0.001 ltac:(lra))).
Defined.

Lemma well4_curvature (k_val : R) :
  k (L := cubic_lib) knots4 well4 = Ok k_val -> 0 <= k_val.
Proof.
  destruct (cell3_values (L := cubic_lib) knots4 well4) as (idx & _ & _ & Hk).
  rewrite Hk. intros Heq. apply Ok_inj in Heq. subst k_val.
  generalize (nth idx (r_fine) 0). intros x.
  unfold cE, fE, E_spline, r_array_au, knots4, well4. simpl.
  unfold cubic_derivative, cubic_through, cubic_eval. cbn [c0 c1 c2 c3]. lra.
Qed.

Lemma well4_eval (x : R) :
  spl_eval (E_spline (L := cubic_lib) knots4 well4) x = (x / 1.89 - 1) ^ 2 - 100.
Proof.
  unfold E_spline, r_array_au, knots4, well4. simpl.
  unfold cubic_through, cubic_eval. cbn [c0 c1 c2 c3]. lra.
Qed.

(** On the grid the shifted energies of the well lie between 0 and 1.69, so
    at a temperature of 0.01 the exponents lie between -169 and 0. *)
Lemma well4_exponents (e : R) :
  In e (E_shifted (L := cubic_lib) knots4 well4) ->
  exponent_in_range (- e / 0.01).
Proof.
  unfold E_shifted, E_fine. rewrite map_map. intros Hin.
  apply in_map_iff in Hin. destruct Hin as (x & <- & Hx).
  destruct (In_nth _ _ 0 Hx) as (i & Hi & <-).
  rewrite r_fine_length in Hi.
  pose proof (r_fine_bounds i Hi) as [Hlo Hhi].
  rewrite well4_eval. set (x := nth i r_fine 0) in *.
  unfold exponent_in_range. split; nra.
Qed.

Lemma initial_conditions_in_range_witness :
  exists req v r0 v0 F0,
    r_eq (L := cubic_lib) knots4 well4 = Ok req
    /\ initial_conditions (L := cubic_lib) knots4 well4 HF.mu 0.5 0.5
       = Ok (v, r0, v0, F0)
    /\ 0.5 * req <= r0 < 1.5 * req
    /\ - v <= v0 <= v.
Proof.
  destruct (initial_conditions_in_range (L := cubic_lib) knots4 well4 HF.mu
              0.5 0.5 half_in_unit_range half_in_unit_range
              HF_mu_pos well4_curvature)
    as (req & v & r0 & v0 & F0 & H1 & H2 & H3 & _ & _ & H4 & _).
  exists req, v, r0, v0, F0. repeat split; first [assumption | apply H3 | apply H4].
Defined.

Lemma r_av_within_sampled_range_witness :
  0.5 <= r_av (L := cubic_lib) knots4 well4 0.01 / 1.89 <= 2.3.
Proof.
  exact (proj2 (r_av_within_sampled_range (L := cubic_lib) knots4 well4
                  0.01 ltac:(lra) well4_exponents)).
Defined.

Lemma r_av_ignores_the_shift_witness :
  r_av (L := cubic_lib) knots4 well4 HF.temperature
  = np_sum (np_multiply r_fine
              (map (fun e => exp (- e / HF.temperature))
                   (E_fine (L := cubic_lib) knots4 well4)))
    / np_sum (map (fun e => exp (- e / HF.temperature))
                  (E_fine (L := cubic_lib) knots4 well4)).
Proof.
  exact (r_av_ignores_the_shift (L := cubic_lib) knots4 well4 HF.temperature
           HF_temperature_nonzero).
Defined.

Lemma trajectory_arrays_in_step_witness :
  exists m tr,
    minE (L := cubic_lib) knots4 flat4 = Ok m
    /\ langevin_trajectory (L := cubic_lib) knots4 flat4 1 1 HF.temperature 0
                           1 1 0 3 zero_draws = Ok tr
    /\ nth 2 (temp_vs_t tr) 0 = 1 * nth 2 (v_vs_t tr) 0 ^ 2
    /\ nth 2 (t_array tr) 0 = 1 * INR 2.
Proof.
  destruct (trajectory_arrays_in_step (L := cubic_lib) knots4 flat4 1 1
              HF.temperature 0 1 1 0 3 zero_draws unit_step_valid
              (small_square_in_range 1 ltac:(lra)) ltac:(lia))
    as (m & tr & Hm & Hrun & _ & _ & _ & _ & _ & Hall).
  destruct (Hall 2%nat ltac:(lia)) as (Ht & HT & _).
  exists m, tr. repeat split; assumption.
Defined.

Lemma trajectory_entries_witness :
  exists tr s,
    langevin_trajectory (L := cubic_lib) knots4 flat4 1 1 HF.temperature 0
                        1 1 0 3 zero_draws = Ok tr
    /\ BBK_iter (L := cubic_lib) knots4 flat4 1 1 HF.temperature 0 1 1 0
                zero_draws 3 = Ok s
    /\ nth 2 (r_vs_t tr) 0 = position s.
Proof.
  destruct (trajectory_entries (L := cubic_lib) knots4 flat4 1 1
              HF.temperature 0 1 1 0 3 zero_draws unit_step_valid
              (small_square_in_range 1 ltac:(lra)) ltac:(lia))
    as (tr & Hrun & _ & _ & _ & Hrec).
  destruct (Hrec 2%nat ltac:(lia)) as (s & Hs & Hr & _).
  exists tr, s. repeat split; assumption.
Defined.

Lemma trajectory_single_entry_witness :
  exists tr,
    langevin_trajectory (L := cubic_lib) knots4 flat4 HF.mu HF.dt HF.temperature
                        HF.gamma 1.7 0.001 0 1 zero_draws = Ok tr
    /\ r_vs_t tr = [1.7] /\ t_array tr = [0].
Proof.
  destruct (trajectory_single_entry (L := cubic_lib) knots4 flat4 HF.mu HF.dt
              HF.temperature HF.gamma 1.7 0.001 0 zero_draws HF_dt_valid
              (small_square_in_range 0.001 ltac:(lra)))
    as (tr & Hrun & Hr & _ & Ht & _).
  exists tr. repeat split; assumption.
Defined.

Lemma notebook_run_exists :
  exists tr,
    langevin_trajectory (L := cubic_lib) knots4 well4 HF.mu HF.dt HF.temperature
                        HF.gamma 1.7 0.001 0 HF.N_updates zero_draws = Ok tr.
Proof.
  pose proof HF_N_updates_pos as HN.
  destruct (trajectory_after_inv (L := cubic_lib) knots4 well4 HF.mu HF.dt
              HF.temperature HF.gamma 1.7 0.001 0 HF.N_updates zero_draws
              HF.N_updates HF_dt_valid (small_square_in_range 0.001 ltac:(lra))
              ltac:(lia)) as (tr & Hrun & _).
  exists tr. exact Hrun.
Qed.

Lemma mean_bond_length_window_witness :
  exists tr,
    langevin_trajectory (L := cubic_lib) knots4 well4 HF.mu HF.dt HF.temperature
                        HF.gamma 1.7 0.001 0 HF.N_updates zero_draws = Ok tr
    /\ Z.of_nat (length (last_30000 HF.N_updates tr)) = 30000%Z.
Proof.
  destruct notebook_run_exists as (tr & Hrun).
  exists tr. split; [exact Hrun |].
  destruct (mean_bond_length_window (L := cubic_lib) knots4 well4 HF.mu HF.dt
              HF.temperature HF.gamma 1.7 0.001 0 HF.N_updates zero_draws tr Hrun)
    as (H30 & _ & _).
  apply H30. unfold HF.N_updates. lia.
Defined.

Lemma mc_samples_are_steps_from_r_init_witness :
  exists st,
    mc_after (L := cubic_lib) knots4 well4 HF.temperature (0.5 * 1.89) 3
             normal_draws uniform_draws 2 = Ok st
    /\ r_prev st = 0.5 * 1.89.
Proof.
  destruct (mc_samples_are_steps_from_r_init (L := cubic_lib) knots4 well4
              HF.temperature (0.5 * 1.89) 3 normal_draws uniform_draws 2
              HF_temperature_nonzero ltac:(lia)) as (st & Hrun & Hprev & _).
  exists st. split; assumption.
Defined.

Lemma mc_mean_is_r_init_plus_mean_draw_witness :
  exists st,
    monte_carlo (L := cubic_lib) knots4 well4 HF.temperature (0.5 * 1.89) 3
                normal_draws uniform_draws = Ok st
    /\ length (accepted_draws (L := cubic_lib) knots4 well4 HF.temperature
                              (0.5 * 1.89) normal_draws uniform_draws 0 3)
       = num_accepted_r st.
Proof.
  destruct (mc_mean_is_r_init_plus_mean_draw (L := cubic_lib) knots4 well4
              HF.temperature (0.5 * 1.89) 3 normal_draws uniform_draws
              HF_temperature_nonzero) as (st & Hrun & Hlen & _).
  exists st. split; assumption.
Defined.

Lemma mc_accepted_entries_are_kept_witness :
  exists st st',
    mc_after (L := cubic_lib) knots4 well4 HF.temperature (0.5 * 1.89) 3
             normal_draws uniform_draws 1 = Ok st
    /\ mc_after (L := cubic_lib) knots4 well4 HF.temperature (0.5 * 1.89) 3
                normal_draws uniform_draws 3 = Ok st'
    /\ (num_accepted_r st <= num_accepted_r st')%nat.
Proof.
  destruct (mc_accepted_entries_are_kept (L := cubic_lib) knots4 well4
              HF.temperature (0.5 * 1.89) 3 normal_draws uniform_draws 1 3
              ltac:(lia) ltac:(lia)) as (st & st' & H1 & H2 & [Hle _] & _).
  exists st, st'. repeat split; assumption.
Defined.

Lemma acceptance_rate_is_a_percentage_witness :
  exists st rate,
    monte_carlo (L := cubic_lib) knots4 well4 HF.temperature (0.5 * 1.89)
                HF.N_updates normal_draws uniform_draws = Ok st
    /\ acceptance_rate HF.N_updates st = Ok rate
    /\ 0 <= rate <= 100.
Proof.
  pose proof HF_N_updates_pos as HN.
  destruct (acceptance_rate_is_a_percentage (L := cubic_lib) knots4 well4
              HF.temperature (0.5 * 1.89) HF.N_updates normal_draws uniform_draws
              ltac:(lia)) as (st & rate & Hrun & Hrate & _ & Hb).
  exists st, rate. repeat split; first [assumption | apply Hb].
Defined.

(** Near the minimum of the well the shifted energies are a few
    temperatures in size. *)
Lemma well4_near_minimum (x : R) :
  x = 1.7 \/ x = 1.9 \/ x = 1.7 ->
  -350 <= spl_eval (E_spline_shifted (L := cubic_lib) knots4 well4) x
          / HF.temperature <= 350.
Proof.
  intros Hx. rewrite well4_shifted_eval. unfold HF.temperature.
  destruct Hx as [-> | [-> | ->]]; lra.
Qed.

Lemma metropolis_p_algebra_witness :
  0 < metropolis_p (L := cubic_lib) knots4 well4 HF.temperature 1.7 1.9
  /\ metropolis_p (L := cubic_lib) knots4 well4 HF.temperature 1.7 1.9
     * metropolis_p (L := cubic_lib) knots4 well4 HF.temperature 1.9 1.7 = 1.
Proof.
  destruct (metropolis_p_algebra (L := cubic_lib) knots4 well4 HF.temperature
              1.7 1.9 1.7 HF_temperature_nonzero well4_near_minimum)
    as (Hpos & _ & Hinv & _).
  split; assumption.
Defined.

Lemma well4_step_exponents :
  exponent_in_range
    (- spl_eval (E_spline_shifted (L := cubic_lib) knots4 well4) (0.5 * 1.89 + 1)
     / HF.temperature)
  /\ exponent_in_range
       (- spl_eval (E_spline_shifted (L := cubic_lib) knots4 well4) (0.5 * 1.89)
        / HF.temperature).
Proof.
  rewrite !well4_shifted_eval. unfold exponent_in_range, HF.temperature.
  split; lra.
Qed.

Lemma metropolis_p_ge_1_iff_downhill_witness :
  1 <= metropolis_p (L := cubic_lib) knots4 well4 HF.temperature
         (0.5 * 1.89 + 1) (0.5 * 1.89)
  <-> spl_eval (E_spline_shifted (L := cubic_lib) knots4 well4) (0.5 * 1.89 + 1)
      <= spl_eval (E_spline_shifted (L := cubic_lib) knots4 well4) (0.5 * 1.89).
Proof.
  exact (proj1 (metropolis_p_ge_1_iff_downhill (L := cubic_lib) knots4 well4
                  HF.temperature (0.5 * 1.89 + 1) (0.5 * 1.89)
                  HF_temperature_pos (proj1 well4_step_exponents)
                  (proj2 well4_step_exponents))).
Defined.

Lemma BBK_keeps_a_particle_at_rest_witness :
  BBK 1.7 0 0 HF.gamma HF.temperature HF.mu
      (spl_eval (fE (L := cubic_lib) knots4 flat4)) HF.dt 0
  = Ok (1.7, 0, 0).
Proof.
  exact (BBK_keeps_a_particle_at_rest 1.7 HF.gamma HF.temperature HF.mu
           (spl_eval (fE (L := cubic_lib) knots4 flat4)) HF.dt
           HF_dt_valid (Rgt_not_eq _ _ HF_mu_pos) HF_denominator_nonzero
           HF_radicand_in_range (flat4_force 1.7)).
Defined.

Lemma BBK_without_drag_is_velocity_verlet_witness :
  exists s,
    BBK 1.7 0.001 0 0 HF.temperature HF.mu
        (spl_eval (fE (L := cubic_lib) knots4 well4)) HF.dt 0.3 = Ok s
    /\ perturbation s = 0.
Proof.
  eexists. split.
  - exact (BBK_without_drag_is_velocity_verlet 1.7 0.001 0 HF.temperature HF.mu
             (spl_eval (fE (L := cubic_lib) knots4 well4)) HF.dt 0.3
             HF_dt_valid (Rgt_not_eq _ _ HF_mu_pos)
             (proj1 HF_radicand_in_range)).
  - reflexivity.
Defined.

Lemma BBK_draw_moves_the_velocity_only_witness :
  exists s s',
    BBK 1.7 0.001 0 HF.gamma HF.temperature HF.mu
        (spl_eval (fE (L := cubic_lib) knots4 well4)) HF.dt 0.3 = Ok s
    /\ BBK 1.7 0.001 0 HF.gamma HF.temperature HF.mu
           (spl_eval (fE (L := cubic_lib) knots4 well4)) HF.dt (-0.3) = Ok s'
    /\ position s = position s'.
Proof.
  destruct (BBK_draw_moves_the_velocity_only 1.7 0.001 0 HF.gamma HF.temperature
              HF.mu (spl_eval (fE (L := cubic_lib) knots4 well4)) HF.dt 0.3 (-0.3)
              HF_dt_valid (Rgt_not_eq _ _ HF_mu_pos) HF_denominator_nonzero
              HF_radicand_in_range)
    as (s & s' & H1 & H2 & H3 & _).
  exists s, s'. repeat split; assumption.
Defined.
